(** * Verification of the map / scan service against its specification

    A shallow embedding of the parts of [server.js], [locations.js] and
    [scan_service.js] that the specification talks about: the TTL cache,
    the battery-id validation middleware and the battery route, the
    station merge, the start-up / shutdown sequence and the duration
    formatting helpers of the scan view.

    JavaScript values are embedded as the inductive type [JS.JSValue];
    plain objects used as dictionaries keep their prototype, because the
    program looks keys up with [in] and [obj[key]], which both walk the
    prototype chain.  Strings are sequences of code units below 256
    (Rocq's [string]); numbers are integers in [Z] (the program only
    computes with timestamps, counters and status codes), and where the
    scan view computes with durations the results are rounded as the
    doubles of JavaScript are (module [Duration]). *)

From Stdlib Require Import ZArith Lia Ascii.
From stdpp Require Import gmap strings list fin_maps.

Set Warnings "-register-all".
Local Open Scope Z_scope.

(** ** JavaScript values *)

Module JS.

(** Data values: what JSON, object literals and the suppliers' replies are
    made of.  [JSObject fields] is an ordinary object (its prototype is
    %Object.prototype%) with the given own properties. *)
Inductive JSValue : Type :=
| JSUndefined
| JSNull
| JSBool (b : bool)
| JSNumber (n : Z)
| JSNaN
| JSString (s : string)
| JSArray (elems : list JSValue)
| JSObject (fields : list (string * JSValue)).

(** What a property read along a prototype chain can produce: a data
    value, a built-in method of %Object.prototype% (a function object,
    identified by its [name]), or %Object.prototype% itself. *)
Inductive PropertyValue : Type :=
| PData (v : JSValue)
| PBuiltin (name : string)
| PObjectPrototype.

(** ToBoolean. *)
Definition truthy (v : JSValue) : bool :=
  match v with
  | JSUndefined | JSNull | JSNaN => false
  | JSBool b => b
  | JSNumber n => negb (n =? 0)
  | JSString s => negb (String.eqb s "")
  | JSArray _ | JSObject _ => true
  end.

Definition truthyP (p : PropertyValue) : bool :=
  match p with
  | PData v => truthy v
  | PBuiltin _ | PObjectPrototype => true
  end.

(** [a || b] on values. *)
Definition jsOr (a b : JSValue) : JSValue := if truthy a then a else b.

(** *** Strings *)

(** White space and line terminators among the code units below 256:
    TAB, LF, VT, FF, CR, SPACE and NBSP. *)
Definition isWhiteSpace (c : ascii) : bool :=
  let n := N_of_ascii c in
  ((9 <=? n) && (n <=? 13) || (n =? 32) || (n =? 160))%N.

Fixpoint trimStart (s : string) : string :=
  match s with
  | EmptyString => EmptyString
  | String c rest => if isWhiteSpace c then trimStart rest else s
  end.

Definition trimEnd (s : string) : string :=
  String.rev (trimStart (String.rev s)).

(** [String.prototype.trim]. *)
Definition trim (s : string) : string := trimEnd (trimStart s).

Fixpoint repeatChar (n : nat) (c : ascii) : string :=
  match n with
  | O => EmptyString
  | S n' => String c (repeatChar n' c)
  end.

(** [s.padStart(target, pad)] for a one-character [pad]. *)
Definition padStart (target : nat) (pad : ascii) (s : string) : string :=
  repeatChar (target - String.length s) pad +:+ s.

(** [s.split(sep)] for a one-character separator: the pieces between
    the occurrences of [sep]; the empty string gives one empty piece. *)
Fixpoint split (sep : ascii) (s : string) : list string :=
  match s with
  | EmptyString => [EmptyString]
  | String c rest =>
      if Ascii.eqb c sep then EmptyString :: split sep rest
      else match split sep rest with
           | piece :: pieces => String c piece :: pieces
           | [] => [String c EmptyString]
           end
  end.

(** *** Numbers and strings *)

Definition digitChar (d : N) : ascii := ascii_of_N (48 + d).

(** The decimal digits of [n], most significant first, in front of
    [acc]; [fuel] bounds the number of digits. *)
Fixpoint decimalDigits (fuel : nat) (n : N) (acc : string) : string :=
  match fuel with
  | O => acc
  | S fuel' =>
      let acc' := String (digitChar (n mod 10)) acc in
      if (n / 10 =? 0)%N then acc' else decimalDigits fuel' (n / 10)%N acc'
  end.

Definition naturalToString (n : N) : string :=
  decimalDigits (S (N.to_nat (N.log2 n))) n EmptyString.

(** [String(n)] for an integer below 2^53 in absolute value: its decimal
    numeral (larger Numbers print the shortest digits that identify them,
    or in exponent notation, and are outside this embedding). *)
Definition numberToString (n : Z) : string :=
  if n <? 0 then String "-" (naturalToString (Z.to_N (- n)))
  else naturalToString (Z.to_N n).

Definition digitValue (c : ascii) : option Z :=
  let n := N_of_ascii c in
  if ((48 <=? n) && (n <=? 57))%N then Some (Z.of_N n - 48) else None.

(** The value of the longest prefix of decimal digits of [s], continuing
    from [acc]; [seen] tells whether a digit was consumed. *)
Fixpoint scanDigits (s : string) (acc : Z) (seen : bool) : option Z :=
  match s with
  | EmptyString => if seen then Some acc else None
  | String c rest =>
      match digitValue c with
      | Some d => scanDigits rest (acc * 10 + d) true
      | None => if seen then Some acc else None
      end
  end.

(** [parseInt(s, 10)]: leading white space is skipped, one sign is
    accepted, the longest prefix of digits is read; [None] is NaN.  The
    result is the exact integer (JavaScript rounds it to a double once it
    exceeds 2^53). *)
Definition parseInt10 (s : string) : option Z :=
  match trimStart s with
  | String "-" rest => option_map Z.opp (scanDigits rest 0 false)
  | String "+" rest => scanDigits rest 0 false
  | t => scanDigits t 0 false
  end.

(** ToString on data values, as used by template literals. *)
Fixpoint toString (v : JSValue) : string :=
  match v with
  | JSUndefined => "undefined"
  | JSNull => "null"
  | JSBool true => "true"
  | JSBool false => "false"
  | JSNumber n => numberToString n
  | JSNaN => "NaN"
  | JSString s => s
  | JSArray elems =>
      (fix join (l : list JSValue) : string :=
         match l with
         | [] => EmptyString
         | x :: rest =>
             let piece := match x with
                          | JSUndefined | JSNull => EmptyString
                          | _ => toString x
                          end in
             match rest with
             | [] => piece
             | _ :: _ => piece +:+ "," +:+ join rest
             end
         end) elems
  | JSObject _ => "[object Object]"
  end.

Definition toStringP (p : PropertyValue) : string :=
  match p with
  | PData v => toString v
  | PBuiltin name => "function " +:+ name +:+ "() { [native code] }"
  | PObjectPrototype => "[object Object]"
  end.

(** *** Objects *)

(** Own property of an ordinary object (the first binding wins). *)
Fixpoint ownField (fields : list (string * JSValue)) (k : string) : option JSValue :=
  match fields with
  | [] => None
  | (k', v) :: rest => if String.eqb k' k then Some v else ownField rest k
  end.

(** [v.k] for a key [k] that no built-in prototype defines (the program
    reads [success], [data], [error], [address], [coordinates], [hours]
    this way): the own property of an object, [undefined] on any other
    value, and a TypeError ([None]) on [undefined] and [null]. *)
Definition readField (v : JSValue) (k : string) : option JSValue :=
  match v with
  | JSUndefined | JSNull => None
  | JSObject fields => Some (default JSUndefined (ownField fields k))
  | _ => Some JSUndefined
  end.

(** The methods every ordinary object inherits from %Object.prototype%. *)
Definition objectPrototypeMethods : list string :=
  [ "constructor"; "__defineGetter__"; "__defineSetter__"; "hasOwnProperty";
    "__lookupGetter__"; "__lookupSetter__"; "isPrototypeOf";
    "propertyIsEnumerable"; "toString"; "valueOf"; "toLocaleString" ].

Definition isObjectPrototypeMethod (k : string) : bool :=
  existsb (String.eqb k) objectPrototypeMethods.

(** [k in Object.prototype]: the methods and the accessor [__proto__]. *)
Definition inObjectPrototype (k : string) : bool :=
  isObjectPrototypeMethod k || String.eqb k "__proto__".

(** Reading [k] through %Object.prototype% on behalf of a receiver whose
    [[Prototype]] is [receiverProto]: a method is a function object whose
    [name] is the key ("Object" for [constructor]); [__proto__] is an
    accessor returning the receiver's prototype. *)
Definition objectPrototypeGet (receiverProto : PropertyValue) (k : string)
  : PropertyValue :=
  if String.eqb k "__proto__" then receiverProto
  else if String.eqb k "constructor" then PBuiltin "Object"
  else if isObjectPrototypeMethod k then PBuiltin k
  else PData JSUndefined.

(** *** Plain objects used as dictionaries

    [own] holds the own properties, [proto] the [[Prototype]]: it is
    %Object.prototype% for an object literal and changes only through an
    assignment to the key [__proto__]. *)
Inductive Prototype : Type :=
| ProtoObjectPrototype                               (* %Object.prototype% *)
| ProtoOrdinary (fields : list (string * JSValue))   (* an ordinary object *)
| ProtoNull.

Record PlainObject : Type := mkPlainObject {
  own : gmap string JSValue;
  proto : Prototype
}.

(** The literal [{}]. *)
Definition emptyObject : PlainObject :=
  {| own := ∅; proto := ProtoObjectPrototype |}.

(** An object literal with the given own properties. *)
Definition objectLiteral (props : gmap string JSValue) : PlainObject :=
  {| own := props; proto := ProtoObjectPrototype |}.

(** [k in o]: an own property, or one found along the prototype chain. *)
Definition hasProperty (o : PlainObject) (k : string) : bool :=
  match own o !! k with
  | Some _ => true
  | None =>
      match proto o with
      | ProtoObjectPrototype => inObjectPrototype k
      | ProtoOrdinary fields =>
          match ownField fields k with
          | Some _ => true
          | None => inObjectPrototype k
          end
      | ProtoNull => false
      end
  end.

(** [o[k]]: the own property first, then the prototype chain. *)
Definition getProperty (o : PlainObject) (k : string) : PropertyValue :=
  match own o !! k with
  | Some v => PData v
  | None =>
      match proto o with
      | ProtoObjectPrototype => objectPrototypeGet PObjectPrototype k
      | ProtoOrdinary fields =>
          match ownField fields k with
          | Some v => PData v
          | None => objectPrototypeGet (PData (JSObject fields)) k
          end
      | ProtoNull => PData JSUndefined
      end
  end.

(** [o[k] = v] for an ordinary object [v = JSObject fields].  The key
    [__proto__] reaches the setter inherited from %Object.prototype%,
    which replaces the prototype of [o]; when the chain of [o] does not
    reach that setter, and for every other key, an own property is
    written. *)
Definition setProperty (o : PlainObject) (k : string)
    (fields : list (string * JSValue)) : PlainObject :=
  let reachesSetter :=
    match own o !! "__proto__", proto o with
    | Some _, _ => false
    | None, ProtoNull => false
    | None, ProtoObjectPrototype => true
    | None, ProtoOrdinary pf =>
        match ownField pf "__proto__" with Some _ => false | None => true end
    end in
  if String.eqb k "__proto__" && reachesSetter
  then {| own := own o; proto := ProtoOrdinary fields |}
  else {| own := <[k := JSObject fields]> (own o); proto := proto o |}.

End JS.

Export JS.

(** ** The API cache ([server.js], [apiCache] / [getCachedData]) *)

Module Cache.

(** A cache entry [{ data, timestamp }]. *)
Record CacheEntry : Type := mkEntry {
  data : JSValue;
  timestamp : Z
}.

(** [const CACHE_TTL = 10000; // 10 seconds] *)
Definition CACHE_TTL : Z := 10000.

(** [getCachedData(key)], with [now] the value of [Date.now()]; the
    second component is [apiCache] after the call. *)
Definition getCachedData (key : string) (now : Z) (apiCache : gmap string CacheEntry)
  : JSValue * gmap string CacheEntry :=
  match apiCache !! key with
  | Some cached =>
      if now - timestamp cached <? CACHE_TTL
      then (data cached, apiCache)
      else (JSNull, delete key apiCache)
  | None => (JSNull, delete key apiCache)
  end.

(** [apiCache.set(key, { data: payload, timestamp: Date.now() })]. *)
Definition apiCache_set (key : string) (payload : JSValue) (now : Z)
    (apiCache : gmap string CacheEntry) : gmap string CacheEntry :=
  <[key := {| data := payload; timestamp := now |}]> apiCache.

End Cache.

(** ** HTTP responses and middleware ([express]) *)

Module Express.

(** What a handler sends: [res.status(code).json(body)]. *)
Record Response : Type := mkResponse {
  status : Z;
  body : JSValue
}.

(** [res.json(v)]: the status stays at its default, 200. *)
Definition json (v : JSValue) : Response := {| status := 200; body := v |}.

(** [res.status(code).json(v)]. *)
Definition statusJson (code : Z) (v : JSValue) : Response :=
  {| status := code; body := v |}.

(** The object literal [{ error: v }]. *)
Definition errorObject (v : JSValue) : JSValue := JSObject [("error", v)].

(** How a middleware ends: it answers, it calls [next()], or it throws;
    an exception thrown by a middleware is handed to the error-handling
    middleware by the router. *)
Inductive MiddlewareResult : Type :=
| Responded (r : Response)
| Next
| Threw (message : string).

(** The global error-handling middleware: status 500 and the generic
    message in production, the error's own message otherwise;
    [production] is [process.env.NODE_ENV === 'production']. *)
Definition errorMiddleware (production : bool) (message : string) : Response :=
  statusJson 500
    (errorObject (JSString (if production then "Internal server error" else message))).

End Express.

Export Express.

(** ** The battery route ([server.js], [validateBatteryId] and
       [app.get('/api/battery/:batteryId')]) *)

Module Battery.

Import Cache.

(** [realBatteryId.trim()]: strings have the method; on every other
    value that passes the preceding truthiness test the property [trim]
    is [undefined] and the call raises a TypeError ([None]). *)
Definition callTrim (realBatteryId : PropertyValue) : option string :=
  match realBatteryId with
  | PData (JSString s) => Some (trim s)
  | _ => None
  end.

(** [validateBatteryId]; [batteryIdMap] is the object exported by
    [public/batteryIdMap], [batteryId] is [req.params.batteryId]. *)
Definition validateBatteryId (batteryIdMap : PlainObject) (batteryId : string)
  : MiddlewareResult :=
  if negb (truthy (JSString batteryId)) || negb (hasProperty batteryIdMap batteryId)
  then Responded (statusJson 400 (errorObject (JSString "Invalid battery ID")))
  else
    let realBatteryId := getProperty batteryIdMap batteryId in
    if negb (truthyP realBatteryId)
    then Responded (statusJson 400 (errorObject (JSString "Battery ID not configured")))
    else
      match callTrim realBatteryId with
      | None => Threw "realBatteryId.trim is not a function"
      | Some trimmed =>
          if String.eqb trimmed ""
          then Responded (statusJson 400 (errorObject (JSString "Battery ID not configured")))
          else Next
      end.

(** How the awaited call [supplierApi.findBatteryById(realBatteryId)]
    ends: the promise resolves with a value or rejects. *)
Inductive AdapterOutcome : Type :=
| Resolved (result : JSValue)
| Rejected.

(** What a request leaves behind: the response, the cache, and the
    arguments of the calls made to the supplier adapter, in order. *)
Record Outcome : Type := mkOutcome {
  response : Response;
  cacheAfter : gmap string CacheEntry;
  adapterCalls : list PropertyValue
}.

Section Handler.

(** The supplier adapter is an external collaborator: any function from
    the id it is asked about to the way the call ends. *)
Variable findBatteryById : PropertyValue -> AdapterOutcome.

(** The route handler.  [now] is [Date.now()] when the cache is
    consulted, [later] is [Date.now()] when the result is stored, after
    the adapter call has been awaited. *)
Definition batteryHandler (batteryIdMap : PlainObject) (customBatteryId : string)
    (now later : Z) (apiCache : gmap string CacheEntry) : Outcome :=
  let realBatteryId := getProperty batteryIdMap customBatteryId in
  let cacheKey := "battery_" +:+ toStringP realBatteryId in
  let '(cachedData, apiCache1) := getCachedData cacheKey now apiCache in
  if truthy cachedData
  then {| response := json cachedData; cacheAfter := apiCache1; adapterCalls := [] |}
  else
    let internalError :=
      {| response := statusJson 500 (errorObject (JSString "Internal server error"));
         cacheAfter := apiCache1;
         adapterCalls := [realBatteryId] |} in
    match findBatteryById realBatteryId with
    | Rejected => internalError
    | Resolved result =>
        match readField result "success" with
        | None => internalError
        | Some success =>
            if truthy success
            then
              let resultData := default JSUndefined (readField result "data") in
              {| response := json resultData;
                 cacheAfter := apiCache_set cacheKey resultData later apiCache1;
                 adapterCalls := [realBatteryId] |}
            else
              let resultError := default JSUndefined (readField result "error") in
              {| response :=
                   statusJson 404
                     (errorObject (jsOr resultError (JSString "Battery not found")));
                 cacheAfter := apiCache1;
                 adapterCalls := [realBatteryId] |}
        end
    end.

(** The route [GET /api/battery/:batteryId]: the validation middleware,
    then the handler; an exception of the middleware goes to the
    error-handling middleware. *)
Definition batteryRoute (production : bool) (batteryIdMap : PlainObject)
    (batteryId : string) (now later : Z) (apiCache : gmap string CacheEntry)
  : Outcome :=
  match validateBatteryId batteryIdMap batteryId with
  | Responded r => {| response := r; cacheAfter := apiCache; adapterCalls := [] |}
  | Threw message =>
      {| response := errorMiddleware production message;
         cacheAfter := apiCache; adapterCalls := [] |}
  | Next => batteryHandler batteryIdMap batteryId now later apiCache
  end.

End Handler.

(** A configured real id is "missing or empty" when it is [undefined],
    [null], or a string with nothing but white space. *)
Definition unconfigured (v : JSValue) : bool :=
  match v with
  | JSUndefined | JSNull => true
  | JSString s => String.eqb (trim s) ""
  | _ => false
  end.

End Battery.

(** ** Stations ([locations.js], and the merge of [server.js]) *)

Module Stations.

Import Cache.

(** [locationManager.isOpen(id)]: "always returns true since API doesn't
    have hours". *)
Definition locationManager_isOpen (id : JSValue) : bool := true.

(** One element of the supplier adapter's station data. *)
Record StationData : Type := mkStationData {
  sd_id : JSValue;
  sd_available : JSValue;
  sd_occupied : JSValue;
  sd_error : JSValue
}.

(** One element of the merged list. *)
Record Station : Type := mkStation {
  id : JSValue;
  name : JSValue;
  address : JSValue;
  coordinates : JSValue;
  hours : JSValue;
  isOpen : JSValue;
  available : JSValue;
  occupied : JSValue;
  error : JSValue
}.

(** The object literal the merge returns for a station. *)
Definition stationObject (s : Station) : JSValue :=
  JSObject [ ("id", id s); ("name", name s); ("address", address s);
             ("coordinates", coordinates s); ("hours", hours s);
             ("isOpen", isOpen s); ("available", available s);
             ("occupied", occupied s); ("error", error s) ].

(** [station.id] of a static station object, as a property key. *)
Definition stationKey (station : list (string * JSValue)) : string :=
  toString (default JSUndefined (ownField station "id")).

(** [const stationInfoMap = {}; allStations.forEach(station => {
       stationInfoMap[station.id] = station; });] *)
Definition buildStationInfoMap (allStations : list (list (string * JSValue)))
  : PlainObject :=
  fold_left (fun stationInfoMap station =>
               setProperty stationInfoMap (stationKey station) station)
            allStations emptyObject.

(** [stationInfo?.k] for the keys the merge reads ([name], [address],
    [coordinates], [hours]): [undefined] when [stationInfo] is
    [undefined]; a function object has a [name] of its own. *)
Definition optionalField (stationInfo : PropertyValue) (k : string) : JSValue :=
  match stationInfo with
  | PData v => default JSUndefined (readField v k)
  | PBuiltin fname => if String.eqb k "name" then JSString fname else JSUndefined
  | PObjectPrototype => JSUndefined
  end.

(** The body of [stationsData.map(stationData => { ... })], the same in
    the request handler and in the polling callback. *)
Definition mergeStation (stationInfoMap : PlainObject) (stationData : StationData)
  : Station :=
  let stationInfo := getProperty stationInfoMap (toString (sd_id stationData)) in
  {| id := sd_id stationData;
     name := jsOr (optionalField stationInfo "name")
                  (JSString ("Station " +:+ toString (sd_id stationData)));
     address := jsOr (optionalField stationInfo "address") (JSString "");
     coordinates := jsOr (optionalField stationInfo "coordinates")
                         (JSArray [JSNumber 0; JSNumber 0]);
     hours := jsOr (optionalField stationInfo "hours") JSNull;
     isOpen := if truthy (optionalField stationInfo "hours")
               then JSBool (locationManager_isOpen (sd_id stationData))
               else JSBool true;
     available := jsOr (sd_available stationData) (JSNumber 0);
     occupied := jsOr (sd_occupied stationData) (JSNumber 0);
     error := jsOr (sd_error stationData) (JSBool false) |}.

Definition mergeStations (allStations : list (list (string * JSValue)))
    (stationsData : list StationData) : list Station :=
  map (mergeStation (buildStationInfoMap allStations)) stationsData.

(** [GET /api/stations].  [allStations] is what [locationManager.getAll()]
    resolves to (it catches its own errors), [stationsData] what
    [supplierApi.fetchMultipleStations] resolves to, [None] when that call
    fails. *)
Definition stationsHandler (now later : Z)
    (allStations : list (list (string * JSValue)))
    (stationsData : option (list StationData))
    (apiCache : gmap string CacheEntry) : Response * gmap string CacheEntry :=
  let '(cachedData, apiCache1) := getCachedData "stations" now apiCache in
  if truthy cachedData then (json cachedData, apiCache1)
  else
    match stationsData with
    | None =>
        (statusJson 500 (errorObject (JSString "Failed to fetch station data")),
         apiCache1)
    | Some fetched =>
        let stations := JSArray (map stationObject (mergeStations allStations fetched)) in
        (json stations, apiCache_set "stations" stations later apiCache1)
    end.

(** A line written to the console. *)
Inductive LogLine : Type :=
| ConsoleError (text : string)
| ConsoleLog (text : string).

(** The callback given to [supplierApi.pollStationData]: [error] is the
    message of the tick's error, if any; the result is the cache and the
    lines written to the console. *)
Definition stationPollCallback (error : option string) (data : list StationData)
    (allStations : list (list (string * JSValue))) (now : Z)
    (apiCache : gmap string CacheEntry)
  : gmap string CacheEntry * list LogLine :=
  match error with
  | Some message =>
      (apiCache, [ConsoleError ("Error in station polling: " +:+ message)])
  | None =>
      let stations := JSArray (map stationObject (mergeStations allStations data)) in
      (apiCache_set "stations" stations now apiCache,
       [ConsoleLog ("Background: Fetched data for "
                    +:+ numberToString (Z.of_nat (length data)) +:+ " stations")])
  end.

(** The callback given to [supplierApi.pollBatteryOrders]; [None] when
    the callback itself throws (reading [data.success] of [undefined] or
    [null], or the [length] of a missing [data.data]). *)
Definition batteryPollCallback (error : option string) (data : JSValue)
  : option (list LogLine) :=
  match error with
  | Some message =>
      Some [ConsoleError ("Error in battery orders polling: " +:+ message)]
  | None =>
      match readField data "success" with
      | None => None
      | Some success =>
          if truthy success then
            match readField data "data" with
            | Some (JSArray orders) =>
                Some [ConsoleLog ("Background: Fetched "
                                  +:+ numberToString (Z.of_nat (length orders))
                                  +:+ " battery orders")]
            | Some (JSString text) =>
                Some [ConsoleLog ("Background: Fetched "
                                  +:+ numberToString (Z.of_nat (String.length text))
                                  +:+ " battery orders")]
            | Some JSUndefined | Some JSNull | None => None
            | Some other =>
                Some [ConsoleLog ("Background: Fetched "
                                  +:+ toString (default JSUndefined (readField other "length"))
                                  +:+ " battery orders")]
            end
          else Some []
      end
  end.

End Stations.

(** ** The supplier adapter ([supplierApi.js]) *)

Module SupplierAdapter.

(** The two supplier back ends. *)
Inductive Supplier : Type := ChargeNow | Energo.

#[global] Instance Supplier_eq_dec : EqDecision Supplier.
Proof. solve_decision. Defined.

(** The reply of a battery lookup: [{ success: true, data }] or
    [{ success: false, error }]. *)
Definition foundResult (record : JSValue) : JSValue :=
  JSObject [("success", JSBool true); ("data", record)].

Definition notFoundResult : JSValue :=
  JSObject [("success", JSBool false); ("error", JSString "Battery not found")].

Section Adapter.

(** Which supplier owns an id, "by id pattern or registry". *)
Variable stationOwner : string -> Supplier.
Variable batteryOwner : string -> Supplier.

(** What each supplier's API knows, already in the common shape. *)
Variable stationsOf : Supplier -> gmap string Stations.StationData.
Variable batteriesOf : Supplier -> gmap string JSValue.

(** Modelled from the spec: [supplierApi.js] is not among the sources.
    By section 4.1 the adapter "determines which of two supplier APIs
    owns it" and queries that one; the second component lists the
    requests sent, each with the supplier it went to. *)
Definition fetchStation (stationId : string)
  : option Stations.StationData * list (Supplier * string) :=
  let supplier := stationOwner stationId in
  (stationsOf supplier !! stationId, [(supplier, stationId)]).

(** Modelled from the spec: [supplierApi.js] is not among the sources.
    By section 4.1, "For battery lookup, tries the owning supplier and
    reports not-found if absent". *)
Definition findBatteryById (batteryId : string)
  : JSValue * list (Supplier * string) :=
  let supplier := batteryOwner batteryId in
  match batteriesOf supplier !! batteryId with
  | Some record => (foundResult record, [(supplier, batteryId)])
  | None => (notFoundResult, [(supplier, batteryId)])
  end.

End Adapter.

End SupplierAdapter.

(** ** The background pollers *)

Module Poller.

Import Cache Stations.

(** A periodic loop: its period, the time of its next tick, and whether
    it is still scheduled. *)
Record Loop : Type := mkLoop {
  interval : Z;
  nextTick : Z;
  scheduled : bool
}.

(** What the process looks like to a poller. *)
Record PollerState : Type := mkPollerState {
  loop : Loop;
  apiCache : gmap string CacheEntry;
  console : list LogLine;
  fired : list Z;          (* the times at which ticks have fired *)
  crashed : bool
}.

(** What one tick of the station poll meets: the fetch fails with a
    message, or delivers data; [allStations] is the static metadata the
    callback then fetches. *)
Inductive StationTick : Type :=
| StationFetchFailed (message : string)
| StationFetchOk (data : list StationData) (allStations : list (list (string * JSValue))).

(** What one tick of the battery-order poll meets. *)
Inductive BatteryTick : Type :=
| OrdersFetchFailed (message : string)
| OrdersFetchOk (data : JSValue).

(** Modelled from the spec: [supplierApi.pollStationData] is not among
    the sources.  By section 4.3 the loop fires on its fixed interval; an
    error of a tick is handed to the callback and "the loop continues on
    the existing schedule (no backoff beyond the fixed interval)".  The
    callback is the one of [server.js]. *)
Definition stationTick (tick : StationTick) (st : PollerState) : PollerState :=
  if negb (scheduled (loop st)) || crashed st then st
  else
    let now := nextTick (loop st) in
    let '(cache', lines) :=
      match tick with
      | StationFetchFailed message =>
          stationPollCallback (Some message) [] [] now (apiCache st)
      | StationFetchOk data allStations =>
          stationPollCallback None data allStations now (apiCache st)
      end in
    {| loop := {| interval := interval (loop st);
                  nextTick := now + interval (loop st);
                  scheduled := true |};
       apiCache := cache';
       console := console st ++ lines;
       fired := fired st ++ [now];
       crashed := false |}.

(** Modelled from the spec: [supplierApi.pollBatteryOrders] is not among
    the sources.  By section 4.3 "failures are logged only"; by section 7
    errors "are isolated per tick and logged", so an exception of the
    callback ends the tick with a console line and nothing else. *)
Definition batteryTick (tick : BatteryTick) (st : PollerState) : PollerState :=
  if negb (scheduled (loop st)) || crashed st then st
  else
    let now := nextTick (loop st) in
    let lines :=
      match tick with
      | OrdersFetchFailed message => batteryPollCallback (Some message) JSUndefined
      | OrdersFetchOk data => batteryPollCallback None data
      end in
    {| loop := {| interval := interval (loop st);
                  nextTick := now + interval (loop st);
                  scheduled := true |};
       apiCache := apiCache st;
       console := console st
                  ++ default [ConsoleError "Error in polling callback"] lines;
       fired := fired st ++ [now];
       crashed := false |}.

Definition runStationTicks (ticks : list StationTick) (st : PollerState) : PollerState :=
  fold_left (fun s t => stationTick t s) ticks st.

Definition runBatteryTicks (ticks : list BatteryTick) (st : PollerState) : PollerState :=
  fold_left (fun s t => batteryTick t s) ticks st.

(** The state right after [pollStationData(ids, 30000, callback)], called
    at time [start]. *)
Definition startStationPoll (start : Z) (cache : gmap string CacheEntry) : PollerState :=
  {| loop := {| interval := 30000; nextTick := start + 30000; scheduled := true |};
     apiCache := cache; console := []; fired := []; crashed := false |}.

(** The state right after [pollBatteryOrders(60000, callback)]. *)
Definition startBatteryPoll (start : Z) (cache : gmap string CacheEntry) : PollerState :=
  {| loop := {| interval := 60000; nextTick := start + 60000; scheduled := true |};
     apiCache := cache; console := []; fired := []; crashed := false |}.

(** The times of the first [n] ticks of a loop of period [period] that
    was started at [start]: one period apart, the first one period after
    the start. *)
Definition tickTimes (start period : Z) (n : nat) : list Z :=
  map (fun k => start + period * Z.of_nat (S k)) (seq 0 n).

End Poller.

(** ** Start-up and shutdown ([server.js], top level) *)

Module Lifecycle.

Inductive LoopName : Type := StationPoll | BatteryOrderPoll | TokenKeepAlive.

#[global] Instance LoopName_eq_dec : EqDecision LoopName.
Proof. solve_decision. Defined.

(** What the top-level code and its callbacks do to the outside world. *)
Inductive Effect : Type :=
| LoadStats                                   (* qrStats.loadStats() *)
| CheckApiHealth                              (* supplierApi.checkApiHealth() *)
| GetAllStations                              (* locationManager.getAll() at the head of
                                                 startBackgroundPolling *)
| StartLoop (l : LoopName) (interval : Z)     (* pollStationData, pollBatteryOrders,
                                                 startEnergoTokenKeepAlive *)
| StopLoop (l : LoopName)                     (* a call of the loop's stop function *)
| SetTimeout (delay : Z)                      (* setTimeout(startBackgroundPolling, delay) *)
| LogStartError                               (* console.error('Error starting background
                                                 polling:', error) *)
| SaveStats                                   (* qrStats.saveStats() *)
| Exit (code : Z).                            (* process.exit(code) *)

#[global] Instance Effect_eq_dec : EqDecision Effect.
Proof. solve_decision. Defined.

(** The process: the clock, the three module-level stop handles
    ([false] is [null]), the loops whose timers are armed, the pending
    [setTimeout], the pending [await locationManager.getAll()] of
    [startBackgroundPolling] (the time at which the station list
    arrives), the effects so far with their times, and whether
    [process.exit] has been called. *)
Record Process : Type := mkProcess {
  clock : Z;
  stationPollingStop : bool;
  batteryPollingStop : bool;
  energoTokenKeepAliveStop : bool;
  armed : list LoopName;
  pendingStart : option Z;
  pendingStations : option Z;
  effects : list (Z * Effect);
  exited : bool
}.

Definition emit (e : Effect) (p : Process) : Process :=
  let 'mkProcess now station battery keepAlive loops pending awaited done gone := p in
  mkProcess now station battery keepAlive loops pending awaited (done ++ [(now, e)]) gone.

(** Modelled from the spec: [supplierApi.js] is not among the sources.
    By section 4.3 each of [pollStationData], [pollBatteryOrders] and
    [startEnergoTokenKeepAlive] starts a periodic loop and returns the
    function that cancels it. *)
Definition startLoop (l : LoopName) (interval : Z) (p : Process) : Process :=
  let 'mkProcess now station battery keepAlive loops pending awaited done gone :=
    emit (StartLoop l interval) p in
  mkProcess now station battery keepAlive (loops ++ [l]) pending awaited done gone.

(** Modelled from the spec: the stop function a loop's start returned;
    it disarms that loop's timer. *)
Definition stopLoop (l : LoopName) (p : Process) : Process :=
  let 'mkProcess now station battery keepAlive loops pending awaited done gone :=
    emit (StopLoop l) p in
  mkProcess now station battery keepAlive
    (filter (fun l' => l' <> l) loops) pending awaited done gone.

Definition setClock (t : Z) (p : Process) : Process :=
  let 'mkProcess _ station battery keepAlive loops pending awaited done gone := p in
  mkProcess t station battery keepAlive loops pending awaited done gone.

Definition clearPending (p : Process) : Process :=
  let 'mkProcess now station battery keepAlive loops _ awaited done gone := p in
  mkProcess now station battery keepAlive loops None awaited done gone.

Definition clearStations (p : Process) : Process :=
  let 'mkProcess now station battery keepAlive loops pending _ done gone := p in
  mkProcess now station battery keepAlive loops pending None done gone.

(** The process before the module body runs. *)
Definition initial : Process :=
  {| clock := 0; stationPollingStop := false; batteryPollingStop := false;
     energoTokenKeepAliveStop := false; armed := []; pendingStart := None;
     pendingStations := None; effects := []; exited := false |}.

(** The module body: the statistics are loaded, the health check is
    requested, and the token keep-alive is started with its stop function
    kept in [energoTokenKeepAliveStop]. *)
Definition loadModule (p : Process) : Process :=
  let 'mkProcess now station battery _ loops pending awaited done gone :=
    startLoop TokenKeepAlive 60000 (emit CheckApiHealth (emit LoadStats p)) in
  mkProcess now station battery true loops pending awaited done gone.

(** [setTimeout(startBackgroundPolling, delay)]. *)
Definition setTimeout (delay : Z) (p : Process) : Process :=
  let 'mkProcess now station battery keepAlive loops _ awaited done gone :=
    emit (SetTimeout delay) p in
  mkProcess now station battery keepAlive loops (Some (now + delay)) awaited done gone.

Section Environment.

(** The time [locationManager.getAll()] takes to resolve (it always
    resolves: it catches its own errors). *)
Variable fetchTime : Z.

(** Whether [supplierApi.pollStationData] throws instead of starting
    its loop: the call sits in a [try] whose [catch] logs the error. *)
Variable stationStartThrows : bool.

(** [startBackgroundPolling] up to its [await]: the station list is
    requested, and the function is suspended until it arrives. *)
Definition startBackgroundPolling (p : Process) : Process :=
  let 'mkProcess now station battery keepAlive loops pending _ done gone :=
    emit GetAllStations p in
  mkProcess now station battery keepAlive loops pending (Some (now + fetchTime))
    done gone.

(** [startBackgroundPolling] from its [await] on, when the station list
    has arrived: the station loop is started and its stop function kept
    in [stationPollingStop], unless the start throws, which the [catch]
    answers with one line on the console; then, outside the [try], the
    battery-order loop is started and its stop function kept in
    [batteryPollingStop]. *)
Definition resumeBackgroundPolling (p : Process) : Process :=
  let p1 :=
    if stationStartThrows then emit LogStartError p
    else
      let 'mkProcess now _ battery keepAlive loops pending awaited done gone :=
        startLoop StationPoll 30000 p in
      mkProcess now true battery keepAlive loops pending awaited done gone in
  let 'mkProcess now station _ keepAlive loops pending awaited done gone :=
    startLoop BatteryOrderPoll 60000 p1 in
  mkProcess now station true keepAlive loops pending awaited done gone.

(** The [then] callback of the health check. *)
Definition onHealthResolved (isHealthy : bool) (p : Process) : Process :=
  if isHealthy then startBackgroundPolling p else setTimeout 30000 p.

(** Time passes until [t]: a pending [setTimeout] that is due fires at
    its own time and calls [startBackgroundPolling]; a station list that
    is due arrives at its own time and [startBackgroundPolling] goes on.
    Nothing happens in a process that has exited. *)
Definition advanceTo (t : Z) (p : Process) : Process :=
  if exited p then p
  else
    let p1 :=
      match pendingStart p with
      | Some due =>
          if due <=? t then startBackgroundPolling (clearPending (setClock due p))
          else p
      | None => p
      end in
    let p2 :=
      match pendingStations p1 with
      | Some ready =>
          if ready <=? t
          then resumeBackgroundPolling (clearStations (setClock ready p1))
          else p1
      | None => p1
      end in
    setClock (Z.max t (clock p2)) p2.

(** Start-up: the module body at time 0, then the health check answers
    at time [latency] with [isHealthy]. *)
Definition startup (latency : Z) (isHealthy : bool) : Process :=
  onHealthResolved isHealthy (advanceTo latency (loadModule initial)).

End Environment.

(** [process.exit(code)]. *)
Definition exit (code : Z) (p : Process) : Process :=
  let 'mkProcess now station battery keepAlive loops pending awaited done _ :=
    emit (Exit code) p in
  mkProcess now station battery keepAlive loops pending awaited done true.

(** The handler of SIGTERM and of SIGINT (the two bodies are identical). *)
Definition onSignal (p : Process) : Process :=
  let p1 := if stationPollingStop p then stopLoop StationPoll p else p in
  let p2 := if batteryPollingStop p1 then stopLoop BatteryOrderPoll p1 else p1 in
  exit 0 (emit SaveStats p2).

(** The times at which effect [e] happened. *)
Definition timesOf (e : Effect) (p : Process) : list Z :=
  map fst (filter (fun te => te.2 = e) (effects p)).

End Lifecycle.

(** ** Durations of the scan view ([scan_service.js]) *)

Module Duration.

(** *** Numbers

    A JavaScript Number is an IEEE 754 double: 53 significant bits, and
    every result rounded to the nearest Number, to the one with the even
    significand in a tie.  The durations are Numbers that are integers;
    such a Number is embedded as the integer it is, and the operations
    round as the doubles do.  Infinity, NaN and the subnormal Numbers
    (magnitudes from 2^1024 on or below 2^-1022) are outside this
    embedding. *)

(** [floor (log2 (a / b))] for positive integers [a] and [b]. *)
Definition exponentOf (a b : Z) : Z :=
  let l := Z.log2 a - Z.log2 b in
  if (if 0 <=? l then a <? b * 2 ^ l else a * 2 ^ (- l) <? b) then l - 1 else l.

(** The integer nearest to [n / d], the even one of the two in a tie
    ([0 <= n], [0 < d]). *)
Definition nearestEven (n d : Z) : Z :=
  let q := n / d in
  let r := n mod d in
  if 2 * r <? d then q
  else if d <? 2 * r then q + 1
  else if Z.even q then q else q + 1.

(** The Number [a / b] for integers [a] and [b] with [0 < b], as a pair
    [(m, e)] that stands for [m * 2 ^ e]: the quotient rounded to 53
    significant bits. *)
Definition divideNumbers (a b : Z) : Z * Z :=
  if a =? 0 then (0, 0)
  else
    let e := exponentOf (Z.abs a) b - 52 in
    let m := if e <=? 0 then nearestEven (Z.abs a * 2 ^ (- e)) b
             else nearestEven (Z.abs a) (b * 2 ^ e) in
    (Z.sgn a * m, e).

(** [Math.floor] of the Number [m * 2 ^ e]. *)
Definition floorNumber (x : Z * Z) : Z :=
  let '(m, e) := x in
  if 0 <=? e then m * 2 ^ e else m / 2 ^ (- e).

(** The Number nearest to the integer [x]: what a product or a sum of
    Numbers whose exact value is [x] evaluates to, and what [parseInt]
    returns for a numeral of value [x]. *)
Definition toNumber (x : Z) : Z := floorNumber (divideNumbers x 1).

(** [x || 0] for the result of [parseInt]. *)
Definition orZero (parsed : option Z) : Z :=
  match parsed with
  | Some n => n
  | None => 0
  end.

(** [parseDurationToSeconds(durationString)]: each of the two products
    and of the two sums of [hours * 3600 + minutes * 60 + seconds] is
    rounded to a Number. *)
Definition parseDurationToSeconds (durationString : string) : Z :=
  let parts := split ":" durationString in
  if negb (length parts =? 3)%nat then 0
  else
    let hours := toNumber (orZero (parseInt10 (nth 0 parts ""))) in
    let minutes := toNumber (orZero (parseInt10 (nth 1 parts ""))) in
    let seconds := toNumber (orZero (parseInt10 (nth 2 parts ""))) in
    toNumber (toNumber (toNumber (hours * 3600) + toNumber (minutes * 60)) + seconds).

(** [formatSecondsToDuration(totalSeconds)] for a Number that is an
    integer.  [%] is the remainder that takes the sign of the dividend,
    and it is exact; the two quotients are rounded before [Math.floor]
    is applied.  [String(hours)] is the numeral of [hours] as long as
    [hours] is below 2^53, that is for [totalSeconds] below 3600 * 2^53
    in absolute value. *)
Definition formatSecondsToDuration (totalSeconds : Z) : string :=
  let hours := floorNumber (divideNumbers totalSeconds 3600) in
  let minutes := floorNumber (divideNumbers (Z.rem totalSeconds 3600) 60) in
  let seconds := Z.rem totalSeconds 60 in
  padStart 2 "0" (numberToString hours) +:+ ":"
  +:+ padStart 2 "0" (numberToString minutes) +:+ ":"
  +:+ padStart 2 "0" (numberToString seconds).

(** [Number.MAX_SAFE_INTEGER]: up to here every integer is a Number and
    the arithmetic above is exact. *)
Definition MAX_SAFE_INTEGER : Z := 2 ^ 53 - 1.

(** The number of occurrences of [c] in [s]. *)
Fixpoint countChar (c : ascii) (s : string) : nat :=
  match s with
  | EmptyString => O
  | String c' rest => if Ascii.eqb c' c then S (countChar c rest) else countChar c rest
  end.

(** Strings made of decimal digits only. *)
Fixpoint isDigitString (s : string) : bool :=
  match s with
  | EmptyString => true
  | String c rest =>
      match digitValue c with
      | Some _ => isDigitString rest
      | None => false
      end
  end.

End Duration.

(** ** Outgoing HTTP requests ([fetch]) *)

Module Http.

(** A request as given to [fetch(url, options)]; [payload] is the value
    handed to [JSON.stringify] for the body, if any. *)
Record Request : Type := mkRequest {
  method : string;
  url : string;
  headers : list (string * string);
  payload : option JSValue
}.

(** How a [fetch] ends: its promise rejects with an error, or it resolves
    with a response, of which [ok], [status] and what [response.json()]
    gives are read: the parsed body, or the message of the error it
    rejects with. *)
Inductive FetchOutcome : Type :=
| FetchRejected (message : string)
| Answered (ok : bool) (status : Z) (json : JSValue + string).

(** How an [async] function that may throw ends. *)
Inductive Completion (A : Type) : Type :=
| Returned (value : A)
| Thrown (message : string).

Arguments Returned {A} value.
Arguments Thrown {A} message.

(** The message of the TypeError raised by reading property [p] of
    [undefined] or [null] (V8). *)
Definition cannotRead (v : JSValue) (p : string) : string :=
  "Cannot read properties of "
  +:+ (match v with JSNull => "null" | _ => "undefined" end)
  +:+ " (reading '" +:+ p +:+ "')".

(** [v.p], as a completion. *)
Definition getField (v : JSValue) (p : string) : Completion JSValue :=
  match readField v p with
  | Some x => Returned x
  | None => Thrown (cannotRead v p)
  end.

(** [v[i]] for an index [i]: an element of an array, a character of a
    string, the own property of an object, [undefined] elsewhere;
    [None] is the TypeError on [undefined] and [null]. *)
Definition readIndex (v : JSValue) (i : nat) : option JSValue :=
  match v with
  | JSUndefined | JSNull => None
  | JSArray elems => Some (nth i elems JSUndefined)
  | JSString s =>
      Some (match String.get i s with
            | Some c => JSString (String c EmptyString)
            | None => JSUndefined
            end)
  | JSObject fields =>
      Some (default JSUndefined (ownField fields (numberToString (Z.of_nat i))))
  | _ => Some JSUndefined
  end.

End Http.

Export Http.

(** ** The scan view ([scan_service.js]) *)

Module ScanService.

Import Duration.

(** [path.replace(/^\//, '')]: one leading slash is removed. *)
Definition stripLeadingSlash (path : string) : string :=
  match path with
  | String "/" rest => rest
  | _ => path
  end.

(** [getStickerIdFromPath()], with [path] the value of
    [window.location.pathname]; [None] is [null]. *)
Definition getStickerIdFromPath (path : string) : option string :=
  let stickerId := stripLeadingSlash path in
  if negb (truthy (JSString stickerId))
     || String.eqb stickerId "map" || String.eqb stickerId "api"
  then None
  else Some stickerId.

(** The duration timer: the module variable [durationTimer] ([None] is
    [null]), the intervals the browser has armed, each with the
    [totalSeconds] of its closure, the id the next [setInterval] returns,
    and the text of the element [#batteryDuration] ([None] when the page
    has no such element). *)
Record Timer : Type := mkTimer {
  durationTimer : option positive;
  intervals : gmap positive Z;
  nextInterval : positive;
  batteryDuration : option string
}.

(** [clearInterval(id)]. *)
Definition clearInterval (id : positive) (t : Timer) : Timer :=
  let 'mkTimer current armed next text := t in
  mkTimer current (delete id armed) next text.

(** [startDurationTimer(initialDuration)]; the flag tells whether the
    call throws, which it does when [initialDuration] is not a string (it
    has no [split]) and the element exists. *)
Definition startDurationTimer (initialDuration : JSValue) (t : Timer) : Timer * bool :=
  let t1 := match durationTimer t with
            | Some id => clearInterval id t
            | None => t
            end in
  let 'mkTimer current armed next text := t1 in
  match text with
  | None => (t1, false)
  | Some _ =>
      match initialDuration with
      | JSString durationString =>
          let totalSeconds := parseDurationToSeconds durationString in
          (mkTimer (Some next) (<[next := totalSeconds]> armed) (Pos.succ next)
             (Some (formatSecondsToDuration totalSeconds)),
           false)
      | _ => (t1, true)
      end
  end.

(** One firing of the interval [id]: the callback that
    [startDurationTimer] armed counts one second ([totalSeconds++], a
    sum of Numbers) and shows the result.  An interval that has been
    cleared does not fire. *)
Definition tick (id : positive) (t : Timer) : Timer :=
  let 'mkTimer current armed next text := t in
  match armed !! id with
  | Some totalSeconds =>
      let counted := toNumber (totalSeconds + 1) in
      mkTimer current (<[id := counted]> armed) next
        (Some (formatSecondsToDuration counted))
  | None => t
  end.

(** [stopDurationTimer()]. *)
Definition stopDurationTimer (t : Timer) : Timer :=
  match durationTimer t with
  | Some id =>
      let 'mkTimer _ armed next text := clearInterval id t in
      mkTimer None armed next text
  | None => t
  end.

(** What can happen to the timer. *)
Inductive TimerEvent : Type :=
| Start (initialDuration : JSValue)
| Stop
| Fire (id : positive).

Definition timerStep (t : Timer) (e : TimerEvent) : Timer :=
  match e with
  | Start initialDuration => (startDurationTimer initialDuration t).1
  | Stop => stopDurationTimer t
  | Fire id => tick id t
  end.

Definition timerRun (events : list TimerEvent) (t : Timer) : Timer :=
  fold_left timerStep events t.

(** The timer when the script is loaded: [let durationTimer = null]. *)
Definition freshTimer (text : option string) : Timer :=
  mkTimer None ∅ 1%positive text.

(** What the timer code maintains: every armed interval is the one
    [durationTimer] names, and ids already handed out are below the next
    one. *)
Definition timerInvariant (t : Timer) : Prop :=
  (forall id, is_Some (intervals t !! id) -> durationTimer t = Some id)
  /\ (forall id, durationTimer t = Some id -> (id < nextInterval t)%positive)
  /\ (forall id, is_Some (intervals t !! id) -> (id < nextInterval t)%positive).

(** [n] firings of the interval [id]. *)
Definition ticks (n : nat) (id : positive) (t : Timer) : Timer :=
  Nat.iter n (tick id) t.

(** The page of the scan view: the timer, the modal [#batteryModal]
    ([None] when absent, otherwise whether it has the class [active]) and
    the text of [#batteryPaid] ([None] when absent). *)
Record Page : Type := mkPage {
  timer : Timer;
  batteryModal : option bool;
  batteryPaid : option string
}.

(** [showBatteryModal(batteryData)]; the flag tells whether the call
    throws: the duration is not a string, or [#batteryPaid] is missing. *)
Definition showBatteryModal (batteryData : JSValue) (page : Page) : Page * bool :=
  let 'mkPage clock modal paid := page in
  match modal with
  | Some _ =>
      if truthy batteryData then
        let initialDuration :=
          jsOr (default JSUndefined (readField batteryData "duration"))
               (JSString "00:00:00") in
        let '(clock', threw) := startDurationTimer initialDuration clock in
        if threw then (mkPage clock' modal paid, true)
        else
          match paid with
          | None => (mkPage clock' modal paid, true)
          | Some _ =>
              let amountPaid :=
                jsOr (default JSUndefined (readField batteryData "amountPaid"))
                     (JSNumber 0) in
              (mkPage clock' (Some true) (Some ("$" +:+ toString amountPaid)), false)
          end
      else (page, false)
  | None => (page, false)
  end.

(** [hideBatteryModal()]. *)
Definition hideBatteryModal (page : Page) : Page :=
  let 'mkPage clock modal paid := page in
  match modal with
  | Some _ => mkPage (stopDurationTimer clock) (Some false) paid
  | None => page
  end.

Section Requests.

(** The server behind the page: any function from requests to the way
    they end. *)
Variable fetch : Request -> FetchOutcome.

(** The request of [fetchBatteryData(stickerId)]. *)
Definition batteryRequest (stickerId : string) : Request :=
  {| method := "GET"; url := "/api/battery/" +:+ stickerId;
     headers := []; payload := None |}.

(** The request of [createScanRecord(stickerId, manufactureId)]. *)
Definition scanRequest (stickerId : string) (manufactureId : JSValue) : Request :=
  {| method := "POST"; url := "/api/battery/" +:+ stickerId;
     headers := [ ("Content-Type", "application/json");
                  ("manufacture_id", toString manufactureId);
                  ("sticker_type", "type one") ];
     payload := Some (JSObject []) |}.

(** [fetchBatteryData(stickerId)]: the data of a successful answer,
    [null] in every other case, errors included; with the request sent. *)
Definition fetchBatteryData (stickerId : string) : JSValue * list Request :=
  (match fetch (batteryRequest stickerId) with
   | Answered _ _ (inl result) =>
       match readField result "success", readField result "data" with
       | Some success, Some data =>
           if truthy success && truthy data then data else JSNull
       | _, _ => JSNull
       end
   | _ => JSNull
   end,
   [batteryRequest stickerId]).

(** [createScanRecord(stickerId, manufactureId)], with the request sent. *)
Definition createScanRecord (stickerId : string) (manufactureId : JSValue)
  : JSValue * list Request :=
  (match fetch (scanRequest stickerId manufactureId) with
   | Answered _ _ (inl result) =>
       match readField result "success", readField result "data" with
       | Some success, Some data => if truthy success then data else JSNull
       | _, _ => JSNull
       end
   | _ => JSNull
   end,
   [scanRequest stickerId manufactureId]).

(** [initScanService()] with [path] the page's path: the page afterwards
    and the requests sent, in order. *)
Definition initScanService (path : string) (page : Page) : Page * list Request :=
  match getStickerIdFromPath path with
  | None => (page, [])
  | Some stickerId =>
      let '(batteryData, sent) := fetchBatteryData stickerId in
      if truthy batteryData then
        let '(page', threw) := showBatteryModal batteryData page in
        if threw then (page', sent)
        else
          let manufactureId :=
            default JSUndefined (readField batteryData "manufacture_id") in
          if truthy manufactureId
          then (page', sent ++ (createScanRecord stickerId manufactureId).2)
          else (page', sent)
      else (page, sent)
  end.

End Requests.

End ScanService.

(** ** The map view ([map_view.js]) *)

Module MapView.

(** [s.includes(c)] for a one-character [c]. *)
Fixpoint includesChar (c : ascii) (s : string) : bool :=
  match s with
  | EmptyString => false
  | String c' rest => Ascii.eqb c' c || includesChar c rest
  end.

(** [getStickerIdFromURL()], with [path] the value of
    [window.location.pathname]; [None] is [null]. *)
Definition getStickerIdFromURL (path : string) : option string :=
  let stickerId := ScanService.stripLeadingSlash path in
  if negb (truthy (JSString stickerId))
     || String.eqb stickerId "map" || String.eqb stickerId "api"
     || includesChar "." stickerId
  then None
  else Some stickerId.

End MapView.

(** ** The station API client ([locations.js], [locationManager]) *)

Module Locations.

(** [const API_BASE_URL = 'https://api.cuub.tech/stations'] *)
Definition API_BASE_URL : string := "https://api.cuub.tech/stations".

Section Client.

(** [parseFloat] yields a floating-point number; this development does
    not compute with those, and leaves the function abstract. *)
Variable parseFloat : JSValue -> JSValue.

(** The station API: any function from requests to the way they end. *)
Variable fetch : Request -> FetchOutcome.

(** The station object built from a record [station] of the API:
    [{ id: station.id, name: station.title, coordinates:
       [parseFloat(station.longitude), parseFloat(station.latitude)] }],
    with [updated_at] where the source copies it; [None] is the TypeError
    raised when [station] is [undefined] or [null]. *)
Definition internalStation (withUpdatedAt : bool) (station : JSValue)
  : option (list (string * JSValue)) :=
  match station with
  | JSUndefined | JSNull => None
  | _ =>
      let field k := default JSUndefined (readField station k) in
      Some ([ ("id", field "id"); ("name", field "title");
              ("coordinates",
               JSArray [parseFloat (field "longitude"); parseFloat (field "latitude")]) ]
            ++ (if withUpdatedAt then [("updated_at", field "updated_at")] else []))
  end.

(** [data.map(station => ...)]: all the stations, or [None] when one
    element makes the callback throw. *)
Fixpoint internalStations (data : list JSValue)
  : option (list (list (string * JSValue))) :=
  match data with
  | [] => Some []
  | station :: rest =>
      match internalStation true station, internalStations rest with
      | Some s, Some l => Some (s :: l)
      | _, _ => None
      end
  end.

Definition getAllRequest : Request :=
  {| method := "GET"; url := API_BASE_URL; headers := []; payload := None |}.

(** [locationManager.getAll()]: every error is caught and turned into
    the empty list. *)
Definition getAll : list (list (string * JSValue)) :=
  match fetch getAllRequest with
  | Answered true _ (inl result) =>
      match readField result "success", readField result "data" with
      | Some success, Some data =>
          if truthy success && truthy data then
            match data with
            | JSArray elems => default [] (internalStations elems)
            | _ => []
            end
          else []
      | _, _ => []
      end
  | _ => []
  end.

(** [locationManager.getAllIds()]. *)
Definition getAllIds : list JSValue :=
  map (fun station => default JSUndefined (ownField station "id")) getAll.

(** [locationManager.getForMap()] and [getForServer()] (the two bodies
    are identical). *)
Definition getForMap : list (list (string * JSValue)) :=
  map (fun station =>
         let field k := default JSUndefined (ownField station k) in
         [ ("id", field "id"); ("name", field "name");
           ("coordinates", field "coordinates") ])
      getAll.

Definition getByIdRequest (id : JSValue) : Request :=
  {| method := "GET"; url := API_BASE_URL +:+ "/" +:+ toString id;
     headers := []; payload := None |}.

(** [locationManager.getById(id)]; [None] is [null], also returned for
    every error. *)
Definition getById (id : JSValue) : option (list (string * JSValue)) :=
  match fetch (getByIdRequest id) with
  | Answered true _ (inl result) =>
      match readField result "success", readField result "data" with
      | Some success, Some data =>
          if truthy success && truthy data then internalStation true data
          else None
      | _, _ => None
      end
  | _ => None
  end.

(** What the three writing calls do with the answer when it is not
    [ok]: [throw new Error(error.message || `HTTP error! Status: ...`)],
    after [error = await response.json()]. *)
Definition httpError (status : Z) (json : JSValue + string) : string :=
  match json with
  | inr message => message
  | inl error =>
      match readField error "message" with
      | None => cannotRead error "message"
      | Some message =>
          toString (jsOr message
                      (JSString ("HTTP error! Status: " +:+ numberToString status)))
      end
  end.

(** The end of [add] and [update]: the station of a successful answer,
    the error [failure] of an unsuccessful one. *)
Definition writtenStation (failure : string) (outcome : FetchOutcome)
  : Completion (list (string * JSValue)) :=
  match outcome with
  | FetchRejected message => Thrown message
  | Answered false status json => Thrown (httpError status json)
  | Answered true _ (inr message) => Thrown message
  | Answered true _ (inl result) =>
      match readField result "success" with
      | None => Thrown (cannotRead result "success")
      | Some success =>
          if truthy success then
            let data := default JSUndefined (readField result "data") in
            match internalStation false data with
            | Some station => Returned station
            | None => Thrown (cannotRead data "id")
            end
          else Thrown failure
      end
  end.

(** The body [add] sends, [None] being the TypeError raised when
    [locationData.coordinates] is [undefined] or [null]. *)
Definition addPayload (id : JSValue) (locationData : list (string * JSValue))
  : option JSValue :=
  let coordinates := default JSUndefined (ownField locationData "coordinates") in
  match readIndex coordinates 1, readIndex coordinates 0 with
  | Some latitude, Some longitude =>
      Some (JSObject [ ("id", id);
                       ("title", default JSUndefined (ownField locationData "name"));
                       ("latitude", latitude); ("longitude", longitude) ])
  | _, _ => None
  end.

Definition jsonRequest (verb target : string) (body : JSValue) : Request :=
  {| method := verb; url := target;
     headers := [("Content-Type", "application/json")]; payload := Some body |}.

(** [locationManager.add(id, locationData)], with the requests sent. *)
Definition add (id : JSValue) (locationData : list (string * JSValue))
  : Completion (list (string * JSValue)) * list Request :=
  match addPayload id locationData with
  | None =>
      (Thrown (cannotRead (default JSUndefined (ownField locationData "coordinates")) "1"),
       [])
  | Some body =>
      let request := jsonRequest "POST" API_BASE_URL body in
      (writtenStation "Failed to add station" (fetch request), [request])
  end.

(** The body [update] sends: the title when a name is given, latitude
    and longitude when coordinates are. *)
Definition updatePayload (locationData : list (string * JSValue)) : JSValue :=
  let name := default JSUndefined (ownField locationData "name") in
  let coordinates := default JSUndefined (ownField locationData "coordinates") in
  JSObject
    ((if truthy name then [("title", name)] else [])
     ++ (if truthy coordinates
         then [ ("latitude", default JSUndefined (readIndex coordinates 1));
                ("longitude", default JSUndefined (readIndex coordinates 0)) ]
         else [])).

(** [locationManager.update(id, locationData)], with the requests sent. *)
Definition update (id : JSValue) (locationData : list (string * JSValue))
  : Completion (list (string * JSValue)) * list Request :=
  let request :=
    jsonRequest "PATCH" (API_BASE_URL +:+ "/" +:+ toString id)
      (updatePayload locationData) in
  (writtenStation "Failed to update station" (fetch request), [request]).

Definition removeRequest (id : JSValue) : Request :=
  {| method := "DELETE"; url := API_BASE_URL +:+ "/" +:+ toString id;
     headers := []; payload := None |}.

(** [locationManager.remove(id)]: the [success] of the answer. *)
Definition remove (id : JSValue) : Completion JSValue * list Request :=
  (match fetch (removeRequest id) with
   | FetchRejected message => Thrown message
   | Answered false status json => Thrown (httpError status json)
   | Answered true _ (inr message) => Thrown message
   | Answered true _ (inl result) => getField result "success"
   end,
   [removeRequest id]).

End Client.

End Locations.

(** ** Station management and token routes ([server.js]) *)

Module Admin.

Import Locations.

(** [Array.isArray(v) && v.length === 2]. *)
Definition isPair (v : JSValue) : bool :=
  match v with
  | JSArray [_; _] => true
  | _ => false
  end.

(** The message of the TypeError raised by destructuring [req.body] when
    it is [undefined] or [null] (V8). *)
Definition cannotDestructure (body : JSValue) (p : string) : string :=
  "Cannot destructure property '" +:+ p +:+ "' of 'req.body' as it is "
  +:+ (match body with JSNull => "null" | _ => "undefined" end) +:+ ".".

(** [{ error: error.message || fallback }]. *)
Definition caught (message fallback : string) : JSValue :=
  errorObject (jsOr (JSString message) (JSString fallback)).

Section Routes.

Variable parseFloat : JSValue -> JSValue.
Variable fetch : Request -> FetchOutcome.

(** [GET /api/admin/stations]. *)
Definition getStations : Response * list Request :=
  (json (JSArray (map JSObject (getAll parseFloat fetch))), [getAllRequest]).

(** [GET /api/locations]. *)
Definition getLocations : Response * list Request :=
  (json (JSArray (map JSObject (getForMap parseFloat fetch))), [getAllRequest]).

(** [POST /api/admin/stations] with [body] the parsed request body: the
    response and the requests sent to the station API, in order. *)
Definition postStation (body : JSValue) : Response * list Request :=
  match body with
  | JSUndefined | JSNull =>
      (statusJson 500 (caught (cannotDestructure body "id") "Failed to add station"),
       [])
  | _ =>
      let field k := default JSUndefined (readField body k) in
      let id := field "id" in
      let name := field "name" in
      let address := field "address" in
      let coordinates := field "coordinates" in
      let hours := field "hours" in
      if negb (truthy id) || negb (truthy name) || negb (truthy coordinates)
      then (statusJson 400
              (errorObject (JSString "Missing required fields: id, name, coordinates")),
            [])
      else if negb (isPair coordinates)
      then (statusJson 400
              (errorObject
                 (JSString "Coordinates must be an array with [longitude, latitude]")),
            [])
      else
        match getById parseFloat fetch id with
        | Some _ =>
            (statusJson 409
               (errorObject (JSString "Station with this ID already exists")),
             [getByIdRequest id])
        | None =>
            let stationData :=
              [("name", name); ("coordinates", coordinates)]
              ++ (if truthy address then [("address", address)] else [])
              ++ (if truthy hours then [("hours", hours)] else []) in
            match add parseFloat fetch id stationData with
            | (Returned newStation, sent) =>
                (statusJson 201
                   (JSObject [ ("message", JSString "Station added successfully");
                               ("station", JSObject newStation) ]),
                 getByIdRequest id :: sent)
            | (Thrown message, sent) =>
                (statusJson 500 (caught message "Failed to add station"),
                 getByIdRequest id :: sent)
            end
        end
  end.

(** [PUT /api/admin/stations/:id] with [id] the route parameter. *)
Definition putStation (id : string) (body : JSValue) : Response * list Request :=
  match body with
  | JSUndefined | JSNull =>
      (statusJson 500
         (caught (cannotDestructure body "name") "Failed to update station"),
       [])
  | _ =>
      let field k := default JSUndefined (readField body k) in
      let name := field "name" in
      let address := field "address" in
      let coordinates := field "coordinates" in
      let hours := field "hours" in
      match getById parseFloat fetch (JSString id) with
      | None =>
          (statusJson 404 (errorObject (JSString "Station not found")),
           [getByIdRequest (JSString id)])
      | Some _ =>
          if truthy coordinates && negb (isPair coordinates)
          then (statusJson 400
                  (errorObject
                     (JSString "Coordinates must be an array with [longitude, latitude]")),
                [getByIdRequest (JSString id)])
          else
            let updateData :=
              (if truthy name then [("name", name)] else [])
              ++ (if truthy address then [("address", address)] else [])
              ++ (if truthy coordinates then [("coordinates", coordinates)] else [])
              ++ (if truthy hours then [("hours", hours)] else []) in
            match update parseFloat fetch (JSString id) updateData with
            | (Returned updatedStation, sent) =>
                (json (JSObject [ ("message", JSString "Station updated successfully");
                                  ("station", JSObject updatedStation) ]),
                 getByIdRequest (JSString id) :: sent)
            | (Thrown message, sent) =>
                (statusJson 500 (caught message "Failed to update station"),
                 getByIdRequest (JSString id) :: sent)
            end
      end
  end.

(** [DELETE /api/admin/stations/:id]. *)
Definition deleteStation (id : string) : Response * list Request :=
  match getById parseFloat fetch (JSString id) with
  | None =>
      (statusJson 404 (errorObject (JSString "Station not found")),
       [getByIdRequest (JSString id)])
  | Some _ =>
      match remove fetch (JSString id) with
      | (Returned _, sent) =>
          (json (JSObject [("message", JSString "Station deleted successfully")]),
           getByIdRequest (JSString id) :: sent)
      | (Thrown message, sent) =>
          (statusJson 500 (caught message "Failed to delete station"),
           getByIdRequest (JSString id) :: sent)
      end
  end.

End Routes.

Section Token.

(** [supplierApi.updateEnergoToken(token)] is an external collaborator:
    it returns a value, or throws ([None]). *)
Variable updateEnergoToken : string -> option JSValue.

(** [POST /api/energo-token]: the response and the tokens handed to
    [updateEnergoToken]. *)
Definition postEnergoToken (body : JSValue) : Response * list string :=
  match body with
  | JSUndefined | JSNull =>
      (statusJson 500 (errorObject (JSString "Failed to update token")), [])
  | _ =>
      match default JSUndefined (readField body "token") with
      | JSString token =>
          if negb (truthy (JSString token)) || negb (truthy (JSString (trim token)))
          then (statusJson 400 (errorObject (JSString "Token is required")), [])
          else
            match updateEnergoToken token with
            | Some success =>
                if truthy success
                then (json (JSObject [ ("success", JSBool true);
                                       ("message", JSString "Token updated successfully") ]),
                      [token])
                else (statusJson 500 (errorObject (JSString "Failed to update token")),
                      [token])
            | None =>
                (statusJson 500 (errorObject (JSString "Failed to update token")),
                 [token])
            end
      | _ => (statusJson 400 (errorObject (JSString "Token is required")), [])
      end
  end.

End Token.

End Admin.

(** * Properties *)

Import Cache Battery Stations.

(** ** The cache *)

Lemma getCachedData_fresh key now (apiCache : gmap string CacheEntry) entry :
  apiCache !! key = Some entry ->
  now - timestamp entry < CACHE_TTL ->
  getCachedData key now apiCache = (data entry, apiCache).
Proof.
  intros Hlook Hfresh. unfold getCachedData. rewrite Hlook.
  destruct (Z.ltb_spec (now - timestamp entry) CACHE_TTL) as [_|Hge]; [done | lia].
Qed.

Lemma getCachedData_stale key now (apiCache : gmap string CacheEntry) entry :
  apiCache !! key = Some entry ->
  CACHE_TTL <= now - timestamp entry ->
  getCachedData key now apiCache = (JSNull, delete key apiCache).
Proof.
  intros Hlook Hstale. unfold getCachedData. rewrite Hlook.
  destruct (Z.ltb_spec (now - timestamp entry) CACHE_TTL) as [Hlt|_]; [lia | done].
Qed.

Lemma getCachedData_absent key now (apiCache : gmap string CacheEntry) :
  apiCache !! key = None ->
  getCachedData key now apiCache = (JSNull, delete key apiCache).
Proof. intros Hlook. unfold getCachedData. by rewrite Hlook. Qed.

(** The lookup touches no other key, and leaves the cache alone unless it
    evicts. *)
Lemma getCachedData_other key key' now (apiCache : gmap string CacheEntry) :
  key' <> key ->
  (getCachedData key now apiCache).2 !! key' = apiCache !! key'.
Proof.
  intros Hne. unfold getCachedData.
  destruct (apiCache !! key) as [entry|] eqn:Hlook; simpl.
  - destruct (now - timestamp entry <? CACHE_TTL); simpl; [done|].
    by rewrite lookup_delete_ne.
  - by rewrite lookup_delete_ne.
Qed.

(** C1.  For every cache key, [getCachedData] returns the stored payload
    when an entry exists whose age, the current time minus its timestamp,
    is strictly below the 10-second TTL (10000 ms), leaving the cache as
    it is; in every other case (an entry that is too old, no entry) it
    returns [null] and the key has no entry afterwards; and a store puts
    the payload under the key with the current time as its timestamp,
    other keys being untouched. *)
Theorem getCachedData_ttl (key : string) (now : Z) (apiCache : gmap string CacheEntry) :
  (forall entry, apiCache !! key = Some entry -> now - timestamp entry < 10000 ->
     getCachedData key now apiCache = (data entry, apiCache))
  /\ ((forall entry, apiCache !! key = Some entry -> 10000 <= now - timestamp entry) ->
      getCachedData key now apiCache = (JSNull, delete key apiCache)
      /\ (getCachedData key now apiCache).2 !! key = None)
  /\ (forall payload,
        apiCache_set key payload now apiCache !! key
        = Some {| data := payload; timestamp := now |})
  /\ (forall payload key', key' <> key ->
        apiCache_set key payload now apiCache !! key' = apiCache !! key').
Proof.
  split; [|split; [|split]].
  - intros entry Hlook Hfresh. by apply getCachedData_fresh.
  - intros Hold.
    assert (getCachedData key now apiCache = (JSNull, delete key apiCache)) as ->.
    { destruct (apiCache !! key) as [entry|] eqn:Hlook.
      - apply (getCachedData_stale _ _ _ entry); [done|]. by apply Hold.
      - by apply getCachedData_absent. }
    split; [done|]. simpl. apply lookup_delete_eq.
  - intros payload. unfold apiCache_set. apply lookup_insert_eq.
  - intros payload key' Hne. unfold apiCache_set. by apply lookup_insert_ne.
Qed.

(** A payload stored at time 0 is served at 9999 ms and gone at 10000 ms. *)
Lemma getCachedData_ttl_witness :
  getCachedData "stations" 9999 (apiCache_set "stations" (JSString "payload") 0 ∅)
  = (JSString "payload", apiCache_set "stations" (JSString "payload") 0 ∅)
  /\ getCachedData "stations" 10000 (apiCache_set "stations" (JSString "payload") 0 ∅)
     = (JSNull, delete "stations" (apiCache_set "stations" (JSString "payload") 0 ∅)).
Proof.
  split.
  - apply (proj1 (getCachedData_ttl "stations" 9999 _)
             {| data := JSString "payload"; timestamp := 0 |}).
    + apply lookup_insert_eq.
    + simpl. lia.
  - apply (proj1 (proj2 (getCachedData_ttl "stations" 10000 _))).
    intros entry Hlook. unfold apiCache_set in Hlook.
    rewrite lookup_insert_eq in Hlook. injection Hlook as <-. simpl. lia.
Defined.

(** After a store at time [stored], a lookup at time [now] serves the
    payload exactly while [now - stored < 10000]. *)
Lemma cache_set_then_get key payload stored now (apiCache : gmap string CacheEntry) :
  (getCachedData key now (apiCache_set key payload stored apiCache)).1
  = if decide (now - stored < 10000) then payload else JSNull.
Proof.
  unfold getCachedData, apiCache_set. rewrite lookup_insert_eq. simpl.
  case_decide as Hage.
  - destruct (Z.ltb_spec (now - stored) CACHE_TTL) as [_|Hge]; [done|].
    unfold CACHE_TTL in Hge. lia.
  - destruct (Z.ltb_spec (now - stored) CACHE_TTL) as [Hlt|_]; [|done].
    unfold CACHE_TTL in Hlt. lia.
Qed.

(** ** The validation middleware *)

(** An id the [in] test rejects is answered with 400 "Invalid battery ID". *)
Lemma validateBatteryId_not_in (batteryIdMap : PlainObject) batteryId :
  hasProperty batteryIdMap batteryId = false ->
  validateBatteryId batteryIdMap batteryId
  = Responded (statusJson 400 (errorObject (JSString "Invalid battery ID"))).
Proof.
  intros Hin. unfold validateBatteryId. rewrite Hin.
  by rewrite orb_true_r.
Qed.

(** An id that is neither an own key nor a name inherited from
    %Object.prototype% is rejected by the [in] test. *)
Lemma hasProperty_literal_absent (table : gmap string JSValue) batteryId :
  table !! batteryId = None ->
  inObjectPrototype batteryId = false ->
  hasProperty (objectLiteral table) batteryId = false.
Proof.
  intros Hown Hinh. unfold hasProperty. simpl. by rewrite Hown.
Qed.

(** The names inherited from %Object.prototype% pass the [in] test of
    every object literal, whatever its own keys. *)
Lemma hasProperty_literal_inherited (table : gmap string JSValue) batteryId :
  inObjectPrototype batteryId = true ->
  hasProperty (objectLiteral table) batteryId = true.
Proof.
  intros Hinh. unfold hasProperty. simpl. by destruct (table !! batteryId).
Qed.

(** Whenever the middleware does not call [next()], the route sends no
    request to the supplier adapter and leaves the cache alone. *)
Lemma batteryRoute_rejected_no_call findBatteryById production
    (batteryIdMap : PlainObject) batteryId now later
    (apiCache : gmap string CacheEntry) :
  validateBatteryId batteryIdMap batteryId <> Next ->
  let out := batteryRoute findBatteryById production batteryIdMap batteryId
               now later apiCache in
  adapterCalls out = [] /\ cacheAfter out = apiCache.
Proof.
  intros Hrej. unfold batteryRoute.
  destruct (validateBatteryId batteryIdMap batteryId); simpl; done.
Qed.

(** The middleware lets a request through only when the table maps the
    id to a string that is not blank. *)
Lemma validateBatteryId_next (batteryIdMap : PlainObject) batteryId :
  validateBatteryId batteryIdMap batteryId = Next ->
  exists realBatteryId,
    getProperty batteryIdMap batteryId = PData (JSString realBatteryId)
    /\ trim realBatteryId <> "".
Proof.
  unfold validateBatteryId.
  destruct (negb (truthy (JSString batteryId)) || negb (hasProperty batteryIdMap batteryId));
    [discriminate|].
  destruct (negb (truthyP (getProperty batteryIdMap batteryId))); [discriminate|].
  destruct (getProperty batteryIdMap batteryId) as [v| |]; simpl; try discriminate.
  destruct v; simpl; try discriminate.
  destruct (String.eqb_spec (trim s) "") as [|Hne]; [discriminate|].
  intros _. by exists s.
Qed.

(** The part of C2 that holds for every id: an id that is not an own key
    of the table never causes a request to the supplier adapter. *)
Lemma absent_id_no_adapter_call findBatteryById production
    (table : gmap string JSValue) batteryId now later
    (apiCache : gmap string CacheEntry) :
  table !! batteryId = None ->
  adapterCalls (batteryRoute findBatteryById production (objectLiteral table)
                  batteryId now later apiCache) = [].
Proof.
  intros Hown.
  apply batteryRoute_rejected_no_call.
  intros Hnext. apply validateBatteryId_next in Hnext as (real & Hget & _).
  unfold getProperty in Hget. simpl in Hget. rewrite Hown in Hget.
  unfold objectPrototypeGet in Hget.
  repeat (destruct (String.eqb _ _) in Hget; [discriminate|]).
  destruct (isObjectPrototypeMethod batteryId); discriminate.
Qed.

(** The part of C2 that holds: an id that is absent from the table and is
    not a name inherited from %Object.prototype% is answered with 400 and
    a JSON error body, before any request to a supplier. *)
Lemma absent_id_bad_request findBatteryById production
    (table : gmap string JSValue) batteryId now later
    (apiCache : gmap string CacheEntry) :
  table !! batteryId = None ->
  inObjectPrototype batteryId = false ->
  let out := batteryRoute findBatteryById production (objectLiteral table)
               batteryId now later apiCache in
  response out = statusJson 400 (errorObject (JSString "Invalid battery ID"))
  /\ adapterCalls out = [].
Proof.
  intros Hown Hinh. unfold batteryRoute.
  rewrite validateBatteryId_not_in; [done|].
  by apply hasProperty_literal_absent.
Qed.

(** C2.  The claim is that every request whose id is absent from the
    static table gets status 400 with a JSON error body, without any
    request to a supplier.  The id ["constructor"] is absent from every
    table that does not list it, yet ["constructor" in batteryIdMap] is
    true and [batteryIdMap["constructor"]] is the function [Object]; its
    [trim] is not callable, the middleware throws, and the error-handling
    middleware answers with status 500.  No request reaches the supplier
    adapter. *)
Theorem absent_id_constructor_500 findBatteryById (production : bool)
    (table : gmap string JSValue) (now later : Z)
    (apiCache : gmap string CacheEntry) :
  table !! "constructor" = None ->
  let out := batteryRoute findBatteryById production (objectLiteral table)
               "constructor" now later apiCache in
  validateBatteryId (objectLiteral table) "constructor"
    = Threw "realBatteryId.trim is not a function"
  /\ status (response out) = 500
  /\ status (response out) <> 400
  /\ adapterCalls out = [].
Proof.
  intros Hown.
  assert (validateBatteryId (objectLiteral table) "constructor"
          = Threw "realBatteryId.trim is not a function") as Hv.
  { unfold validateBatteryId, hasProperty, getProperty. simpl. by rewrite Hown. }
  unfold batteryRoute. rewrite Hv. simpl. by destruct production.
Qed.

Lemma absent_id_constructor_500_witness :
  status (response
            (batteryRoute (fun _ => Rejected) true
               (objectLiteral {[ "A1" := JSString "RL3D52000012" ]})
               "constructor" 0 0 ∅)) = 500.
Proof.
  apply (absent_id_constructor_500 (fun _ => Rejected) true
           {[ "A1" := JSString "RL3D52000012" ]} 0 0 ∅).
  by apply lookup_singleton_ne.
Defined.

(** ** Unconfigured ids *)

(** C8 as stated fails: the table maps "A1" to the empty string, and the
    answer to [GET /api/battery/A1] has status 400, not 404. *)
Lemma unconfigured_id_not_404 :
  let table : gmap string JSValue := {[ "A1" := JSString "" ]} in
  table !! "A1" = Some (JSString "")
  /\ unconfigured (JSString "") = true
  /\ status (response (batteryRoute (fun _ => Rejected) true (objectLiteral table)
                         "A1" 0 0 ∅)) <> 404.
Proof.
  split; [apply lookup_singleton_eq|]. split; [done|].
  unfold batteryRoute, validateBatteryId, hasProperty, getProperty. simpl.
  rewrite lookup_singleton_eq. simpl. done.
Qed.

(** C8, amended.  For every request whose id is a key of the static table
    mapped to a missing or empty real id ([undefined], [null], or a
    string of nothing but white space), the server answers with status
    400 (not 404) and a JSON error body, which is
    [{ error: "Battery ID not configured" }] for the non-empty ids a route
    parameter can be, and sends no request to a supplier. *)
Theorem unconfigured_id_bad_request findBatteryById (production : bool)
    (table : gmap string JSValue) (batteryId : string) (realBatteryId : JSValue)
    (now later : Z) (apiCache : gmap string CacheEntry) :
  table !! batteryId = Some realBatteryId ->
  unconfigured realBatteryId = true ->
  let out := batteryRoute findBatteryById production (objectLiteral table)
               batteryId now later apiCache in
  status (response out) = 400
  /\ (exists message, body (response out) = errorObject (JSString message))
  /\ adapterCalls out = []
  /\ (batteryId <> "" ->
      response out
      = statusJson 400 (errorObject (JSString "Battery ID not configured"))).
Proof.
  intros Hown Hunconf.
  destruct (String.eqb_spec batteryId "") as [Hid|Hid].
  - assert (validateBatteryId (objectLiteral table) batteryId
            = Responded (statusJson 400 (errorObject (JSString "Invalid battery ID"))))
      as Hv.
    { unfold validateBatteryId. rewrite Hid. done. }
    unfold batteryRoute. rewrite Hv. simpl.
    split; [done|]. split; [by eexists|]. split; [done|].
    intros Hne. by destruct Hne.
  - assert (validateBatteryId (objectLiteral table) batteryId
            = Responded (statusJson 400
                           (errorObject (JSString "Battery ID not configured"))))
      as Hv.
    { unfold validateBatteryId, hasProperty, getProperty. simpl. rewrite Hown.
      destruct (String.eqb_spec batteryId "") as [|_]; [done|]. simpl.
      destruct realBatteryId; simpl in *; try done.
      destruct (String.eqb_spec s "") as [->|Hs]; simpl; [done|].
      by rewrite Hunconf. }
    unfold batteryRoute. rewrite Hv. simpl.
    split; [done|]. split; [by eexists|]. split; [done|]. done.
Qed.

Lemma unconfigured_id_bad_request_witness :
  status (response (batteryRoute (fun _ => Rejected) false
                      (objectLiteral {[ "A1" := JSString "  " ]}) "A1" 0 0 ∅)) = 400.
Proof.
  pose proof (unconfigured_id_bad_request (fun _ => Rejected) false
                {[ "A1" := JSString "  " ]} "A1" (JSString "  ") 0 0 ∅) as H.
  simpl in H.
  destruct H as [Hstatus _]; [apply lookup_singleton_eq | done |].
  exact Hstatus.
Defined.

(** ** The battery route *)

(** The cache as the lookup of [key] at time [now] leaves it: an entry
    that is too old has been evicted, nothing else has changed. *)
Lemma getCachedData_leaves key now (apiCache : gmap string CacheEntry) :
  (getCachedData key now apiCache).2 = apiCache
  \/ (getCachedData key now apiCache).2 = delete key apiCache.
Proof.
  unfold getCachedData. destruct (apiCache !! key) as [entry|]; simpl; [|by right].
  destruct (now - timestamp entry <? CACHE_TTL); simpl; [by left | by right].
Qed.

(** The lookup serves a truthy payload only from an entry that is fresh. *)
Lemma getCachedData_truthy key now (apiCache : gmap string CacheEntry) :
  truthy (getCachedData key now apiCache).1 = true ->
  exists entry, apiCache !! key = Some entry
                /\ now - timestamp entry < 10000
                /\ (getCachedData key now apiCache) = (data entry, apiCache).
Proof.
  unfold getCachedData. destruct (apiCache !! key) as [entry|]; simpl; [|done].
  destruct (Z.ltb_spec (now - timestamp entry) CACHE_TTL) as [Hlt|]; simpl; [|done].
  intros _. exists entry. unfold CACHE_TTL in Hlt. done.
Qed.

(** C9 as stated fails.  The table maps "A1" to "B1"; the cache holds an
    entry for "battery_B1" stored at time 0; at time 20000 the adapter
    reports a failure.  The answer is 404 and the cache has changed: the
    expired entry is gone. *)
Lemma battery_failure_changes_cache :
  let table : gmap string JSValue := {[ "A1" := JSString "B1" ]} in
  let apiCache : gmap string CacheEntry :=
    {[ "battery_B1" := {| data := JSString "old"; timestamp := 0 |} ]} in
  let findBatteryById := fun _ : PropertyValue =>
    Resolved (JSObject [("success", JSBool false)]) in
  let out := batteryRoute findBatteryById true (objectLiteral table) "A1"
               20000 20001 apiCache in
  validateBatteryId (objectLiteral table) "A1" = Next
  /\ status (response out) = 404
  /\ cacheAfter out <> apiCache.
Proof.
  simpl.
  assert (validateBatteryId (objectLiteral {[ "A1" := JSString "B1" ]}) "A1" = Next)
    as Hv.
  { unfold validateBatteryId, hasProperty, getProperty. simpl.
    rewrite lookup_singleton_eq. done. }
  split; [exact Hv|].
  unfold batteryRoute. rewrite Hv.
  unfold batteryHandler, getProperty. simpl. rewrite lookup_singleton_eq. simpl.
  unfold getCachedData. rewrite lookup_singleton_eq. simpl.
  split; [done|].
  intros Heq. apply (f_equal (fun m => m !! "battery_B1")) in Heq.
  change ("battery_" +:+ "B1") with "battery_B1" in Heq.
  rewrite lookup_delete_eq, lookup_singleton_eq in Heq. discriminate.
Qed.

(** A fresh entry whose payload is falsy is not served either: the
    adapter is called although the entry is fresh. *)
Lemma battery_fresh_falsy_calls_adapter :
  let table : gmap string JSValue := {[ "A1" := JSString "B1" ]} in
  let apiCache : gmap string CacheEntry :=
    {[ "battery_B1" := {| data := JSNull; timestamp := 0 |} ]} in
  let findBatteryById := fun _ : PropertyValue =>
    Resolved (JSObject [("success", JSBool false)]) in
  adapterCalls (batteryRoute findBatteryById true (objectLiteral table) "A1"
                  5 6 apiCache) = [PData (JSString "B1")].
Proof.
  simpl. unfold batteryRoute, validateBatteryId, hasProperty, getProperty. simpl.
  rewrite lookup_singleton_eq. simpl.
  unfold batteryHandler, getProperty. simpl. rewrite lookup_singleton_eq. simpl.
  unfold getCachedData. rewrite lookup_singleton_eq. simpl. done.
Qed.

(** C9, amended.  For every validated request, with [key] the cache key
    of the real id: if a fresh entry with a truthy payload exists it is
    returned without calling the adapter and the cache is unchanged;
    otherwise the adapter is called once, with the real id.  Exactly when
    it reports success is the result stored, under [key] with the current
    time, and returned; when it reports failure the status is 404 with a
    JSON error body; when an exception is thrown (the call rejects, or
    its result is [undefined] or [null]) the status is 500 with a JSON
    error body.  In both failure cases nothing is stored: the cache is
    the one the lookup left, which is the initial cache except that an
    expired entry under [key] has been evicted. *)
Theorem battery_route_validated findBatteryById (production : bool)
    (batteryIdMap : PlainObject) (batteryId : string) (now later : Z)
    (apiCache : gmap string CacheEntry) :
  validateBatteryId batteryIdMap batteryId = Next ->
  let realBatteryId := getProperty batteryIdMap batteryId in
  let key := "battery_" +:+ toStringP realBatteryId in
  let looked := getCachedData key now apiCache in
  let out := batteryRoute findBatteryById production batteryIdMap batteryId
               now later apiCache in
  (forall entry,
     apiCache !! key = Some entry -> now - timestamp entry < 10000 ->
     truthy (data entry) = true ->
     response out = json (data entry) /\ adapterCalls out = []
     /\ cacheAfter out = apiCache)
  /\ (truthy looked.1 = false ->
      adapterCalls out = [realBatteryId]
      /\ (looked.2 = apiCache \/ looked.2 = delete key apiCache)
      /\ match findBatteryById realBatteryId with
         | Rejected =>
             response out
             = statusJson 500 (errorObject (JSString "Internal server error"))
             /\ cacheAfter out = looked.2
         | Resolved result =>
             match readField result "success" with
             | None =>
                 response out
                 = statusJson 500 (errorObject (JSString "Internal server error"))
                 /\ cacheAfter out = looked.2
             | Some success =>
                 if truthy success
                 then
                   (exists resultData,
                      readField result "data" = Some resultData
                      /\ response out = json resultData
                      /\ cacheAfter out
                         = <[key := {| data := resultData; timestamp := later |}]>
                             looked.2)
                 else
                   (status (response out) = 404
                    /\ (exists message,
                          body (response out) = errorObject message)
                    /\ cacheAfter out = looked.2)
             end
         end).
Proof.
  intros Hv. simpl. unfold batteryRoute. rewrite Hv. unfold batteryHandler.
  set (key := "battery_" +:+ toStringP (getProperty batteryIdMap batteryId)).
  split.
  - intros entry Hlook Hfresh Htruthy.
    rewrite (getCachedData_fresh _ _ _ entry Hlook Hfresh). by rewrite Htruthy.
  - destruct (getCachedData key now apiCache) as [cachedData apiCache1] eqn:Hget.
    simpl. intros Hfalsy. rewrite Hfalsy.
    assert (apiCache1 = apiCache \/ apiCache1 = delete key apiCache) as Hleft.
    { pose proof (getCachedData_leaves key now apiCache) as H.
      by rewrite Hget in H. }
    destruct (findBatteryById (getProperty batteryIdMap batteryId)) as [result|];
      simpl; [|done].
    destruct (readField result "success") as [success|] eqn:Hsuccess; simpl; [|done].
    destruct (truthy success); simpl.
    + split; [done|]. split; [done|].
      destruct result; simpl in Hsuccess |- *; try discriminate; eauto.
    + split; [done|]. split; [done|]. split; [done|]. split; [eauto | done].
Qed.

Lemma battery_route_validated_witness :
  cacheAfter (batteryRoute (fun _ => Rejected) true
                (objectLiteral {[ "A1" := JSString "B1" ]}) "A1" 7 8
                {[ "battery_B1" := {| data := JSString "fresh"; timestamp := 0 |} ]})
  = {[ "battery_B1" := {| data := JSString "fresh"; timestamp := 0 |} ]}.
Proof.
  assert (validateBatteryId (objectLiteral {[ "A1" := JSString "B1" ]}) "A1" = Next)
    as Hv.
  { unfold validateBatteryId, hasProperty, getProperty. simpl.
    rewrite lookup_singleton_eq. done. }
  pose proof (battery_route_validated (fun _ => Rejected) true
                (objectLiteral {[ "A1" := JSString "B1" ]}) "A1" 7 8
                {[ "battery_B1" := {| data := JSString "fresh"; timestamp := 0 |} ]}
                Hv) as [Hfresh _].
  destruct (Hfresh {| data := JSString "fresh"; timestamp := 0 |}) as (_ & _ & Hcache).
  - unfold getProperty. simpl. rewrite lookup_singleton_eq. simpl.
    first [reflexivity | apply lookup_singleton_eq].
  - simpl. lia.
  - done.
  - exact Hcache.
Defined.

(** ** The station merge *)

(** A station list none of whose ids is [k] or [__proto__] leaves [k]
    without an own property and the prototype at %Object.prototype%. *)
Lemma fold_setProperty_absent (k : string)
    (allStations : list (list (string * JSValue))) (o : PlainObject) :
  Forall (fun station => stationKey station <> k
                         /\ stationKey station <> "__proto__") allStations ->
  own o !! k = None ->
  proto o = ProtoObjectPrototype ->
  let o' := fold_left (fun stationInfoMap station =>
                         setProperty stationInfoMap (stationKey station) station)
                      allStations o in
  own o' !! k = None /\ proto o' = ProtoObjectPrototype.
Proof.
  revert o. induction allStations as [|station rest IH]; intros o Hall Hown Hproto.
  - done.
  - inversion Hall as [|? ? [Hk Hp] Hrest]; subst. simpl.
    apply IH; [done| |].
    + unfold setProperty.
      destruct (String.eqb_spec (stationKey station) "__proto__") as [|_]; [done|].
      simpl. by rewrite lookup_insert_ne.
    + unfold setProperty.
      destruct (String.eqb_spec (stationKey station) "__proto__") as [|_]; [done|].
      done.
Qed.

Lemma buildStationInfoMap_absent (k : string)
    (allStations : list (list (string * JSValue))) :
  Forall (fun station => stationKey station <> k
                         /\ stationKey station <> "__proto__") allStations ->
  getProperty (buildStationInfoMap allStations) k
  = objectPrototypeGet PObjectPrototype k.
Proof.
  intros Hall.
  destruct (fold_setProperty_absent k allStations emptyObject Hall) as [Hown Hproto];
    [done | done |].
  unfold getProperty, buildStationInfoMap. by rewrite Hown, Hproto.
Qed.

Lemma objectPrototypeGet_not_inherited receiver k :
  inObjectPrototype k = false ->
  objectPrototypeGet receiver k = PData JSUndefined.
Proof.
  unfold inObjectPrototype, objectPrototypeGet. intros Hinh.
  apply orb_false_iff in Hinh as [Hmeth Hproto]. rewrite Hproto.
  destruct (String.eqb_spec k "constructor") as [->|_]; [discriminate Hmeth|].
  by rewrite Hmeth.
Qed.

(** When the lookup finds nothing, own or inherited, the defaults are used. *)
Lemma mergeStation_undefined (stationInfoMap : PlainObject) (stationData : StationData) :
  getProperty stationInfoMap (toString (sd_id stationData)) = PData JSUndefined ->
  let merged := mergeStation stationInfoMap stationData in
  name merged = JSString ("Station " +:+ toString (sd_id stationData))
  /\ address merged = JSString ""
  /\ coordinates merged = JSArray [JSNumber 0; JSNumber 0]
  /\ hours merged = JSNull
  /\ isOpen merged = JSBool true.
Proof.
  intros Hget. unfold mergeStation. rewrite Hget. simpl. done.
Qed.

(** The part of C3 that holds: a station id that has no static record and
    is not a name inherited from %Object.prototype% gets the defaults. *)
Lemma mergeStation_no_metadata (allStations : list (list (string * JSValue)))
    (stationData : StationData) :
  Forall (fun station => stationKey station <> toString (sd_id stationData)
                         /\ stationKey station <> "__proto__") allStations ->
  inObjectPrototype (toString (sd_id stationData)) = false ->
  let merged := mergeStation (buildStationInfoMap allStations) stationData in
  name merged = JSString ("Station " +:+ toString (sd_id stationData))
  /\ address merged = JSString ""
  /\ coordinates merged = JSArray [JSNumber 0; JSNumber 0]
  /\ hours merged = JSNull
  /\ isOpen merged = JSBool true.
Proof.
  intros Hall Hinh. apply mergeStation_undefined.
  rewrite buildStationInfoMap_absent; [|done].
  by apply objectPrototypeGet_not_inherited.
Qed.

(** [isOpen] is [locationManager.isOpen(id)] when [hours] is present and
    [true] otherwise; [locationManager.isOpen] being constantly true, so
    is [isOpen]. *)
Lemma mergeStation_isOpen (stationInfoMap : PlainObject) (stationData : StationData) :
  let merged := mergeStation stationInfoMap stationData in
  isOpen merged
  = (if truthy (hours merged)
     then JSBool (locationManager_isOpen (sd_id stationData))
     else JSBool true)
  /\ isOpen merged = JSBool true.
Proof.
  unfold mergeStation, jsOr. simpl.
  destruct (truthy (optionalField _ "hours")) eqn:Hhours; simpl.
  - by rewrite Hhours.
  - done.
Qed.

(** Both the request handler (on a cache miss) and the polling callback
    publish the merged list. *)
Lemma stationsHandler_miss now later allStations fetched :
  stationsHandler now later allStations (Some fetched) ∅
  = (json (JSArray (map stationObject (mergeStations allStations fetched))),
     apiCache_set "stations"
       (JSArray (map stationObject (mergeStations allStations fetched))) later ∅).
Proof.
  unfold stationsHandler, getCachedData. rewrite lookup_empty. simpl.
  by rewrite delete_empty.
Qed.

Lemma stationPollCallback_ok data allStations now (apiCache : gmap string CacheEntry) :
  (stationPollCallback None data allStations now apiCache).1 !! "stations"
  = Some {| data := JSArray (map stationObject (mergeStations allStations data));
            timestamp := now |}.
Proof. unfold stationPollCallback, apiCache_set. simpl. apply lookup_insert_eq. Qed.

(** C3.  The claim is that every station id of the supplier data that
    has no static record is merged with the name "Station " followed by
    the id.  [stationInfoMap] is an object literal: for the id
    ["constructor"], which no static record carries,
    [stationInfoMap["constructor"]] is the function [Object] inherited
    from %Object.prototype%, [stationInfo?.name] is its name, and the
    merged station is called "Object".  The other defaults, and [isOpen],
    are as claimed. *)
Theorem merged_station_constructor (allStations : list (list (string * JSValue)))
    (stationData : StationData) :
  sd_id stationData = JSString "constructor" ->
  Forall (fun station => stationKey station <> "constructor"
                         /\ stationKey station <> "__proto__") allStations ->
  let merged := mergeStation (buildStationInfoMap allStations) stationData in
  name merged = JSString "Object"
  /\ name merged <> JSString ("Station " +:+ toString (sd_id stationData))
  /\ address merged = JSString ""
  /\ coordinates merged = JSArray [JSNumber 0; JSNumber 0]
  /\ isOpen merged = JSBool true.
Proof.
  intros Hid Hall. unfold mergeStation. rewrite Hid. simpl.
  rewrite buildStationInfoMap_absent; [|done]. simpl. done.
Qed.

Lemma merged_station_constructor_witness :
  name (mergeStation (buildStationInfoMap [])
          {| sd_id := JSString "constructor"; sd_available := JSNumber 3;
             sd_occupied := JSNumber 1; sd_error := JSBool false |})
  = JSString "Object".
Proof.
  apply (merged_station_constructor []
           {| sd_id := JSString "constructor"; sd_available := JSNumber 3;
              sd_occupied := JSNumber 1; sd_error := JSBool false |});
    [reflexivity | constructor].
Defined.

(** ** The supplier adapter *)

Section AdapterProperties.

Import SupplierAdapter.

Variable stationOwner batteryOwner : string -> Supplier.
Variable stationsOf : Supplier -> gmap string StationData.
Variable batteriesOf : Supplier -> gmap string JSValue.

Lemma foundResult_inj record record' :
  foundResult record = foundResult record' -> record = record'.
Proof. unfold foundResult. intros H. by injection H. Qed.

(** C4.  Every station id is routed to exactly one of the two
    suppliers, which is its owner, and the data returned is that
    supplier's; a battery lookup sends its one request to the owning
    supplier, reports not-found when the battery is absent there
    (whatever the other supplier knows), and any record it returns is
    the owner's. *)
Theorem adapter_routes_to_owner (stationId batteryId : string) :
  (exists! supplier,
     (fetchStation stationOwner stationsOf stationId).2 = [(supplier, stationId)])
  /\ (fetchStation stationOwner stationsOf stationId).2
     = [(stationOwner stationId, stationId)]
  /\ (fetchStation stationOwner stationsOf stationId).1
     = stationsOf (stationOwner stationId) !! stationId
  /\ (findBatteryById batteryOwner batteriesOf batteryId).2
     = [(batteryOwner batteryId, batteryId)]
  /\ (batteriesOf (batteryOwner batteryId) !! batteryId = None ->
      (findBatteryById batteryOwner batteriesOf batteryId).1 = notFoundResult)
  /\ (forall record,
        (findBatteryById batteryOwner batteriesOf batteryId).1 = foundResult record ->
        batteriesOf (batteryOwner batteryId) !! batteryId = Some record).
Proof.
  unfold fetchStation, findBatteryById. simpl.
  split.
  { exists (stationOwner stationId). split; [done|].
    intros supplier Heq. by injection Heq. }
  split; [done|]. split; [done|].
  destruct (batteriesOf (batteryOwner batteryId) !! batteryId) as [record|];
    simpl.
  - split; [done|]. split; [done|].
    intros record' Heq. apply foundResult_inj in Heq. by subst.
  - split; [done|]. split; [done|].
    intros record' Heq. discriminate.
Qed.

End AdapterProperties.

(** A battery that only the other supplier knows is reported not found. *)
Lemma adapter_routes_to_owner_witness :
  (SupplierAdapter.findBatteryById (fun _ => SupplierAdapter.ChargeNow)
     (fun s => match s with
               | SupplierAdapter.ChargeNow => ∅
               | SupplierAdapter.Energo => {[ "B1" := JSString "record" ]}
               end) "B1").1
  = SupplierAdapter.notFoundResult.
Proof.
  apply (adapter_routes_to_owner (fun _ => SupplierAdapter.ChargeNow)
           (fun _ => SupplierAdapter.ChargeNow) (fun _ => ∅)
           (fun s => match s with
                     | SupplierAdapter.ChargeNow => ∅
                     | SupplierAdapter.Energo => {[ "B1" := JSString "record" ]}
                     end) "S1" "B1").
  apply lookup_empty.
Defined.

(** ** The pollers *)

Section PollerProperties.

Import Poller.

Lemma tickTimes_snoc start period n :
  tickTimes start period (S n)
  = tickTimes start period n ++ [start + period * Z.of_nat (S n)].
Proof. unfold tickTimes. by rewrite seq_S, map_app. Qed.

Lemma runStationTicks_snoc ticks tick st :
  runStationTicks (ticks ++ [tick]) st = stationTick tick (runStationTicks ticks st).
Proof. unfold runStationTicks. by rewrite fold_left_app. Qed.

Lemma runBatteryTicks_snoc ticks tick st :
  runBatteryTicks (ticks ++ [tick]) st = batteryTick tick (runBatteryTicks ticks st).
Proof. unfold runBatteryTicks. by rewrite fold_left_app. Qed.

(** The station loop after any ticks: still scheduled, not crashed, on
    the grid of its period. *)
Lemma station_loop_schedule start cache ticks :
  let st := runStationTicks ticks (startStationPoll start cache) in
  scheduled (loop st) = true
  /\ crashed st = false
  /\ interval (loop st) = 30000
  /\ nextTick (loop st) = start + 30000 * Z.of_nat (S (length ticks))
  /\ fired st = tickTimes start 30000 (length ticks).
Proof.
  induction ticks as [|tick ticks IH] using rev_ind.
  - simpl. repeat split; (done || lia).
  - rewrite runStationTicks_snoc, length_app. simpl.
    destruct IH as (Hs & Hc & Hi & Hn & Hf).
    unfold stationTick. rewrite Hs, Hc. simpl.
    destruct (match tick with
              | StationFetchFailed message => _
              | StationFetchOk data allStations => _
              end) as [cache' lines]. simpl.
    rewrite Hi, Hn, Hf.
    replace (length ticks + 1)%nat with (S (length ticks)) by lia.
    rewrite tickTimes_snoc. repeat split; (done || lia).
Qed.

Lemma battery_loop_schedule start cache ticks :
  let st := runBatteryTicks ticks (startBatteryPoll start cache) in
  scheduled (loop st) = true
  /\ crashed st = false
  /\ interval (loop st) = 60000
  /\ nextTick (loop st) = start + 60000 * Z.of_nat (S (length ticks))
  /\ fired st = tickTimes start 60000 (length ticks).
Proof.
  induction ticks as [|tick ticks IH] using rev_ind.
  - simpl. repeat split; (done || lia).
  - rewrite runBatteryTicks_snoc, length_app. simpl.
    destruct IH as (Hs & Hc & Hi & Hn & Hf).
    unfold batteryTick. rewrite Hs, Hc. simpl.
    rewrite Hi, Hn, Hf.
    replace (length ticks + 1)%nat with (S (length ticks)) by lia.
    rewrite tickTimes_snoc. repeat split; (done || lia).
Qed.

(** The console only grows. *)
Lemma stationTick_console tick st :
  exists lines, console (stationTick tick st) = console st ++ lines.
Proof.
  unfold stationTick.
  destruct (negb (scheduled (loop st)) || crashed st).
  - exists []. by rewrite app_nil_r.
  - destruct (match tick with
              | StationFetchFailed message => _
              | StationFetchOk data allStations => _
              end) as [cache' lines]. simpl. by exists lines.
Qed.

Lemma batteryTick_console tick st :
  exists lines, console (batteryTick tick st) = console st ++ lines.
Proof.
  unfold batteryTick.
  destruct (negb (scheduled (loop st)) || crashed st).
  - exists []. by rewrite app_nil_r.
  - simpl. by eexists.
Qed.

Lemma runStationTicks_console ticks st line :
  line ∈ console st -> line ∈ console (runStationTicks ticks st).
Proof.
  induction ticks as [|tick ticks IH] using rev_ind; [done|].
  intros Hin. rewrite runStationTicks_snoc.
  destruct (stationTick_console tick (runStationTicks ticks st)) as [lines ->].
  apply elem_of_app. left. by apply IH.
Qed.

Lemma runBatteryTicks_console ticks st line :
  line ∈ console st -> line ∈ console (runBatteryTicks ticks st).
Proof.
  induction ticks as [|tick ticks IH] using rev_ind; [done|].
  intros Hin. rewrite runBatteryTicks_snoc.
  destruct (batteryTick_console tick (runBatteryTicks ticks st)) as [lines ->].
  apply elem_of_app. left. by apply IH.
Qed.

(** The callbacks of [server.js] answer an error by one console line,
    without throwing and without touching the cache. *)
Lemma stationPollCallback_error message data allStations now
    (cache : gmap string CacheEntry) :
  stationPollCallback (Some message) data allStations now cache
  = (cache, [ConsoleError ("Error in station polling: " +:+ message)]).
Proof. done. Qed.

Lemma batteryPollCallback_error message data :
  batteryPollCallback (Some message) data
  = Some [ConsoleError ("Error in battery orders polling: " +:+ message)].
Proof. done. Qed.

(** C5.  For both polling loops and every sequence of ticks, failed or
    not: the loop is still scheduled after the ticks and the process
    has not crashed; the ticks have fired on the fixed grid, one period
    apart, and the next one is due one period after the last; and the
    error of every failed tick is on the console. *)
Theorem failed_tick_keeps_schedule (start : Z) (cache : gmap string CacheEntry)
    (stationTicks : list StationTick) (batteryTicks : list BatteryTick) :
  let stations := runStationTicks stationTicks (startStationPoll start cache) in
  let orders := runBatteryTicks batteryTicks (startBatteryPoll start cache) in
  (scheduled (loop stations) = true /\ crashed stations = false
   /\ fired stations = tickTimes start 30000 (length stationTicks)
   /\ nextTick (loop stations)
      = start + 30000 * Z.of_nat (S (length stationTicks))
   /\ forall message, StationFetchFailed message ∈ stationTicks ->
        ConsoleError ("Error in station polling: " +:+ message) ∈ console stations)
  /\ (scheduled (loop orders) = true /\ crashed orders = false
      /\ fired orders = tickTimes start 60000 (length batteryTicks)
      /\ nextTick (loop orders)
         = start + 60000 * Z.of_nat (S (length batteryTicks))
      /\ forall message, OrdersFetchFailed message ∈ batteryTicks ->
           ConsoleError ("Error in battery orders polling: " +:+ message)
           ∈ console orders).
Proof.
  simpl. split.
  - destruct (station_loop_schedule start cache stationTicks)
      as (Hs & Hc & _ & Hn & Hf).
    repeat split; try done.
    intros message Hin. apply list_elem_of_split in Hin as (before & after & ->).
    replace (before ++ StationFetchFailed message :: after)
      with ((before ++ [StationFetchFailed message]) ++ after)
      by (by rewrite <- app_assoc).
    unfold runStationTicks. rewrite fold_left_app.
    apply runStationTicks_console.
    fold (runStationTicks (before ++ [StationFetchFailed message])
            (startStationPoll start cache)).
    rewrite runStationTicks_snoc.
    destruct (station_loop_schedule start cache before) as (Hs' & Hc' & _).
    unfold stationTick. rewrite Hs', Hc'. simpl.
    apply elem_of_app. right. by apply list_elem_of_singleton.
  - destruct (battery_loop_schedule start cache batteryTicks)
      as (Hs & Hc & _ & Hn & Hf).
    repeat split; try done.
    intros message Hin. apply list_elem_of_split in Hin as (before & after & ->).
    replace (before ++ OrdersFetchFailed message :: after)
      with ((before ++ [OrdersFetchFailed message]) ++ after)
      by (by rewrite <- app_assoc).
    unfold runBatteryTicks. rewrite fold_left_app.
    apply runBatteryTicks_console.
    fold (runBatteryTicks (before ++ [OrdersFetchFailed message])
            (startBatteryPoll start cache)).
    rewrite runBatteryTicks_snoc.
    destruct (battery_loop_schedule start cache before) as (Hs' & Hc' & _).
    unfold batteryTick. rewrite Hs', Hc'. simpl.
    apply elem_of_app. right. by apply list_elem_of_singleton.
Qed.

End PollerProperties.

(** A failed tick between two good ones: three ticks fire, 30 s apart. *)
Lemma failed_tick_keeps_schedule_witness :
  Poller.fired
    (Poller.runStationTicks
       [Poller.StationFetchOk [] []; Poller.StationFetchFailed "timeout";
        Poller.StationFetchOk [] []]
       (Poller.startStationPoll 0 ∅))
  = [30000; 60000; 90000].
Proof.
  pose proof (failed_tick_keeps_schedule 0 ∅
                [Poller.StationFetchOk [] []; Poller.StationFetchFailed "timeout";
                 Poller.StationFetchOk [] []] []) as [(_ & _ & Hfired & _) _].
  exact Hfired.
Defined.

(** ** Start-up and shutdown *)

Section LifecycleProperties.

Import Lifecycle.

(** The process once the module body has run and the health check has
    answered. *)
Lemma startup_healthy fetchTime throws latency :
  0 <= latency ->
  startup fetchTime throws latency true
  = {| clock := latency; stationPollingStop := false; batteryPollingStop := false;
       energoTokenKeepAliveStop := true;
       armed := [TokenKeepAlive];
       pendingStart := None;
       pendingStations := Some (latency + fetchTime);
       effects := [(0, LoadStats); (0, CheckApiHealth);
                   (0, StartLoop TokenKeepAlive 60000);
                   (latency, GetAllStations)];
       exited := false |}.
Proof.
  intros Hlat. unfold startup, advanceTo, onHealthResolved.
  cbn -[Z.max Z.add]. by rewrite Z.max_l.
Qed.

Lemma startup_unhealthy fetchTime throws latency :
  0 <= latency ->
  startup fetchTime throws latency false
  = {| clock := latency; stationPollingStop := false; batteryPollingStop := false;
       energoTokenKeepAliveStop := true;
       armed := [TokenKeepAlive];
       pendingStart := Some (latency + 30000);
       pendingStations := None;
       effects := [(0, LoadStats); (0, CheckApiHealth);
                   (0, StartLoop TokenKeepAlive 60000);
                   (latency, SetTimeout 30000)];
       exited := false |}.
Proof.
  intros Hlat. unfold startup, advanceTo, onHealthResolved.
  cbn -[Z.max Z.add]. by rewrite Z.max_l.
Qed.

(** After the answer "healthy", nothing happens until the station list
    arrives. *)
Lemma advance_healthy_waiting fetchTime throws latency horizon :
  0 <= latency -> latency <= horizon -> horizon < latency + fetchTime ->
  advanceTo fetchTime throws horizon (startup fetchTime throws latency true)
  = setClock horizon (startup fetchTime throws latency true).
Proof.
  intros Hlat Hhor Hearly. rewrite startup_healthy by done.
  unfold advanceTo. cbn -[Z.max Z.add Z.leb].
  destruct (Z.leb_spec (latency + fetchTime) horizon) as [Hdue|_]; [lia|].
  cbn -[Z.max Z.add]. by rewrite Z.max_l.
Qed.

(** When it arrives, the loops are started. *)
Lemma advance_healthy_started fetchTime throws latency horizon :
  0 <= latency -> latency + fetchTime <= horizon ->
  advanceTo fetchTime throws horizon (startup fetchTime throws latency true)
  = {| clock := horizon; stationPollingStop := negb throws;
       batteryPollingStop := true; energoTokenKeepAliveStop := true;
       armed := TokenKeepAlive
                :: (if throws then [] else [StationPoll]) ++ [BatteryOrderPoll];
       pendingStart := None;
       pendingStations := None;
       effects := [(0, LoadStats); (0, CheckApiHealth);
                   (0, StartLoop TokenKeepAlive 60000);
                   (latency, GetAllStations)]
                  ++ (if throws then [(latency + fetchTime, LogStartError)]
                      else [(latency + fetchTime, StartLoop StationPoll 30000)])
                  ++ [(latency + fetchTime, StartLoop BatteryOrderPoll 60000)];
       exited := false |}.
Proof.
  intros Hlat Hdue. rewrite startup_healthy by done.
  unfold advanceTo. cbn -[Z.max Z.add Z.leb].
  destruct (Z.leb_spec (latency + fetchTime) horizon) as [_|Hearly]; [|lia].
  destruct throws; cbn -[Z.max Z.add]; by rewrite Z.max_l.
Qed.

(** After the answer "unhealthy", nothing happens for 30 seconds. *)
Lemma advance_unhealthy_early fetchTime throws latency horizon :
  0 <= latency -> latency <= horizon -> horizon < latency + 30000 ->
  advanceTo fetchTime throws horizon (startup fetchTime throws latency false)
  = setClock horizon (startup fetchTime throws latency false).
Proof.
  intros Hlat Hhor Hearly. rewrite startup_unhealthy by done.
  unfold advanceTo. cbn -[Z.max Z.add Z.leb].
  destruct (Z.leb_spec (latency + 30000) horizon) as [Hdue|_]; [lia|].
  cbn -[Z.max Z.add]. by rewrite Z.max_l.
Qed.

(** Then the timer fires, and the station list is requested. *)
Lemma advance_unhealthy_waiting fetchTime throws latency horizon :
  0 <= latency -> latency + 30000 <= horizon ->
  horizon < latency + 30000 + fetchTime ->
  advanceTo fetchTime throws horizon (startup fetchTime throws latency false)
  = {| clock := horizon; stationPollingStop := false; batteryPollingStop := false;
       energoTokenKeepAliveStop := true;
       armed := [TokenKeepAlive];
       pendingStart := None;
       pendingStations := Some (latency + 30000 + fetchTime);
       effects := [(0, LoadStats); (0, CheckApiHealth);
                   (0, StartLoop TokenKeepAlive 60000);
                   (latency, SetTimeout 30000);
                   (latency + 30000, GetAllStations)];
       exited := false |}.
Proof.
  intros Hlat Hdue Hearly. rewrite startup_unhealthy by done.
  unfold advanceTo. cbn -[Z.max Z.add Z.leb].
  destruct (Z.leb_spec (latency + 30000) horizon) as [_|Hlate]; [|lia].
  cbn -[Z.max Z.add Z.leb].
  destruct (Z.leb_spec (latency + 30000 + fetchTime) horizon) as [Hlate|_]; [lia|].
  cbn -[Z.max Z.add]. by rewrite Z.max_l by lia.
Qed.

(** When the list arrives, the loops are started. *)
Lemma advance_unhealthy_started fetchTime throws latency horizon :
  0 <= latency -> 0 <= fetchTime -> latency + 30000 + fetchTime <= horizon ->
  advanceTo fetchTime throws horizon (startup fetchTime throws latency false)
  = {| clock := horizon; stationPollingStop := negb throws;
       batteryPollingStop := true; energoTokenKeepAliveStop := true;
       armed := TokenKeepAlive
                :: (if throws then [] else [StationPoll]) ++ [BatteryOrderPoll];
       pendingStart := None;
       pendingStations := None;
       effects := [(0, LoadStats); (0, CheckApiHealth);
                   (0, StartLoop TokenKeepAlive 60000);
                   (latency, SetTimeout 30000);
                   (latency + 30000, GetAllStations)]
                  ++ (if throws
                      then [(latency + 30000 + fetchTime, LogStartError)]
                      else [(latency + 30000 + fetchTime, StartLoop StationPoll 30000)])
                  ++ [(latency + 30000 + fetchTime, StartLoop BatteryOrderPoll 60000)];
       exited := false |}.
Proof.
  intros Hlat Hfetch Hdue. rewrite startup_unhealthy by done.
  unfold advanceTo. cbn -[Z.max Z.add Z.leb].
  destruct (Z.leb_spec (latency + 30000) horizon) as [_|Hearly]; [|lia].
  cbn -[Z.max Z.add Z.leb].
  destruct (Z.leb_spec (latency + 30000 + fetchTime) horizon) as [_|Hearly]; [|lia].
  destruct throws; cbn -[Z.max Z.add]; by rewrite Z.max_l.
Qed.

(** C6 as stated fails.  The health check answers "unhealthy" after
    100 ms and the station API answers in 250 ms; a minute later both
    polling loops run, started at 30350 ms, and the only health check
    ever made is the one at time 0: it is not retried. *)
Lemma unhealthy_start_no_retry :
  let p := advanceTo 250 false 60000 (startup 250 false 100 false) in
  timesOf (StartLoop StationPoll 30000) p = [30350]
  /\ timesOf (StartLoop BatteryOrderPoll 60000) p = [30350]
  /\ timesOf CheckApiHealth p = [0]
  /\ ~ (exists t, 0 < t /\ (t, CheckApiHealth) ∈ effects p).
Proof.
  cbv zeta. rewrite advance_unhealthy_started by lia.
  split; [reflexivity|]. split; [reflexivity|]. split; [reflexivity|].
  intros (t & Hpos & Hin). cbn [effects app] in Hin.
  repeat (apply elem_of_cons in Hin as [Heq|Hin]; [simplify_eq; lia|]).
  by apply elem_of_nil in Hin.
Qed.

(** C6, amended.  Start-up makes exactly one health check, at load
    time, whatever its answer, and the token keep-alive loop is started
    at load time regardless of it.  [startBackgroundPolling] is called
    once: when the check answers, if it reports healthy, and 30 seconds
    after the answer, not before and without another health check, if
    it reports unhealthy.  It first requests the station list; the
    station and battery-order loops are started when that list arrives,
    not before, the station loop only if its start does not throw. *)
Theorem startup_sequence (latency fetchTime horizon : Z)
    (isHealthy stationStartThrows : bool) :
  0 <= latency -> 0 <= fetchTime -> latency <= horizon ->
  let p := advanceTo fetchTime stationStartThrows horizon
             (startup fetchTime stationStartThrows latency isHealthy) in
  let called := if isHealthy then latency else latency + 30000 in
  let pollStart := called + fetchTime in
  timesOf CheckApiHealth p = [0]
  /\ timesOf (StartLoop TokenKeepAlive 60000) p = [0]
  /\ timesOf GetAllStations p = (if called <=? horizon then [called] else [])
  /\ (pollStart <= horizon ->
      timesOf (StartLoop StationPoll 30000) p
      = (if stationStartThrows then [] else [pollStart])
      /\ timesOf (StartLoop BatteryOrderPoll 60000) p = [pollStart]
      /\ armed p = TokenKeepAlive
                   :: (if stationStartThrows then [] else [StationPoll])
                   ++ [BatteryOrderPoll])
  /\ (horizon < pollStart ->
      timesOf (StartLoop StationPoll 30000) p = []
      /\ timesOf (StartLoop BatteryOrderPoll 60000) p = []
      /\ armed p = [TokenKeepAlive]).
Proof.
  intros Hlat Hfetch Hhor. destruct isHealthy; cbv zeta.
  - destruct (Z.leb_spec latency horizon) as [_|]; [|lia].
    destruct (Z.le_gt_cases (latency + fetchTime) horizon) as [Hdue|Hearly].
    + rewrite advance_healthy_started by done.
      split; [by destruct stationStartThrows|].
      split; [by destruct stationStartThrows|].
      split; [by destruct stationStartThrows|].
      split; [intros _; by destruct stationStartThrows | intros Hlt; lia].
    + rewrite advance_healthy_waiting, startup_healthy by done.
      split; [reflexivity|]. split; [reflexivity|]. split; [reflexivity|].
      split; [intros Hle; lia | intros _; by repeat split].
  - destruct (Z.le_gt_cases (latency + 30000) horizon) as [Hcalled|Hearly].
    + destruct (Z.leb_spec (latency + 30000) horizon) as [_|]; [|lia].
      destruct (Z.le_gt_cases (latency + 30000 + fetchTime) horizon)
        as [Hdue|Hwaiting].
      * rewrite advance_unhealthy_started by done.
        split; [by destruct stationStartThrows|].
        split; [by destruct stationStartThrows|].
        split; [by destruct stationStartThrows|].
        split; [intros _; by destruct stationStartThrows | intros Hlt; lia].
      * rewrite advance_unhealthy_waiting by done.
        split; [reflexivity|]. split; [reflexivity|]. split; [reflexivity|].
        split; [intros Hle; lia | intros _; by repeat split].
    + destruct (Z.leb_spec (latency + 30000) horizon) as [|_]; [lia|].
      rewrite advance_unhealthy_early, startup_unhealthy by done.
      split; [reflexivity|]. split; [reflexivity|]. split; [reflexivity|].
      split; [intros Hle; lia | intros _; by repeat split].
Qed.

Lemma startup_sequence_witness :
  timesOf (StartLoop StationPoll 30000)
    (advanceTo 250 false 60000 (startup 250 false 100 false))
  = [30350].
Proof.
  pose proof (startup_sequence 100 250 60000 false false) as H. cbv zeta in H.
  destruct H as (_ & _ & _ & Hstarted & _); [lia | lia | lia |].
  destruct Hstarted as [Hstation _]; [lia|]. exact Hstation.
Defined.

Lemma onSignal_effects (p : Process) :
  effects (onSignal p)
  = effects p
    ++ (if stationPollingStop p then [(clock p, StopLoop StationPoll)] else [])
    ++ (if batteryPollingStop p then [(clock p, StopLoop BatteryOrderPoll)] else [])
    ++ [(clock p, SaveStats); (clock p, Exit 0)].
Proof.
  destruct p as [now [] [] keepAlive loops pending awaited done gone]; cbn;
    by rewrite <- ?app_assoc.
Qed.

(** What the signal handler does to the armed loops: the station poll
    and the battery-order poll are disarmed when their stop functions
    are set; no other loop is touched. *)
Lemma onSignal_armed (p : Process) (l : LoopName) :
  l ∈ armed (onSignal p)
  <-> l ∈ armed p
      /\ (l = StationPoll -> stationPollingStop p = false)
      /\ (l = BatteryOrderPoll -> batteryPollingStop p = false).
Proof.
  destruct p as [now [] [] keepAlive loops pending awaited done gone]; cbn;
    rewrite ?list_elem_of_filter; naive_solver.
Qed.

Lemma onSignal_exited (p : Process) : exited (onSignal p) = true.
Proof. by destruct p as [now [] [] keepAlive loops pending awaited done gone]. Qed.

(** C7.  The claim is that a shutdown signal cancels all three loops
    and that the statistics are saved before the process exits.  The
    handler calls the stop functions of the station poll and of the
    battery-order poll, then [qrStats.saveStats()] and
    [process.exit(0)]; the stop function kept in
    [energoTokenKeepAliveStop] is never called, so the token keep-alive
    loop is still armed when the process exits. *)
Theorem shutdown_leaves_keep_alive (p : Process) :
  TokenKeepAlive ∈ armed p ->
  (forall t, (t, StopLoop TokenKeepAlive) ∉ effects p) ->
  let q := onSignal p in
  TokenKeepAlive ∈ armed q
  /\ (forall t, (t, StopLoop TokenKeepAlive) ∉ effects q)
  /\ (stationPollingStop p = true -> StationPoll ∉ armed q)
  /\ (batteryPollingStop p = true -> BatteryOrderPoll ∉ armed q)
  /\ (exists before,
        effects q = before ++ [(clock p, SaveStats); (clock p, Exit 0)])
  /\ exited q = true.
Proof.
  intros Harmed Hnever. cbv zeta.
  split; [apply onSignal_armed; naive_solver|].
  split.
  { intros t Hin. rewrite onSignal_effects in Hin.
    rewrite !elem_of_app in Hin.
    destruct Hin as [Hin|[Hin|[Hin|Hin]]].
    - by apply (Hnever t).
    - destruct (stationPollingStop p); [|by apply elem_of_nil in Hin].
      apply list_elem_of_singleton in Hin. discriminate.
    - destruct (batteryPollingStop p); [|by apply elem_of_nil in Hin].
      apply list_elem_of_singleton in Hin. discriminate.
    - repeat (apply elem_of_cons in Hin as [Heq|Hin]; [discriminate|]).
      by apply elem_of_nil in Hin. }
  split.
  { intros Hs Hin. apply onSignal_armed in Hin as (_ & Hst & _).
    specialize (Hst eq_refl). congruence. }
  split.
  { intros Hb Hin. apply onSignal_armed in Hin as (_ & _ & Hbt).
    specialize (Hbt eq_refl). congruence. }
  split; [|apply onSignal_exited].
  rewrite onSignal_effects. rewrite !app_assoc. by eexists.
Qed.

(** After a healthy start-up, a signal stops two loops out of three. *)
Lemma shutdown_leaves_keep_alive_witness :
  armed (onSignal (advanceTo 250 false 1000 (startup 250 false 100 true)))
  = [TokenKeepAlive]
  /\ TokenKeepAlive
     ∈ armed (onSignal (advanceTo 250 false 1000 (startup 250 false 100 true))).
Proof.
  rewrite advance_healthy_started by lia.
  split; [reflexivity|].
  apply (shutdown_leaves_keep_alive
           {| clock := 1000; stationPollingStop := true; batteryPollingStop := true;
              energoTokenKeepAliveStop := true;
              armed := [TokenKeepAlive; StationPoll; BatteryOrderPoll];
              pendingStart := None;
              pendingStations := None;
              effects := [(0, LoadStats); (0, CheckApiHealth);
                          (0, StartLoop TokenKeepAlive 60000);
                          (100, GetAllStations);
                          (350, StartLoop StationPoll 30000);
                          (350, StartLoop BatteryOrderPoll 60000)];
              exited := false |}).
  - cbn [armed]. apply elem_of_cons. by left.
  - intros t Hin. cbn [effects] in Hin.
    repeat (apply elem_of_cons in Hin as [Heq|Hin]; [discriminate|]).
    by apply elem_of_nil in Hin.
Defined.

End LifecycleProperties.

(** ** Durations *)

Section DurationProperties.

Import Duration.

Lemma digitValue_digitChar (d : N) :
  (d < 10)%N -> digitValue (digitChar d) = Some (Z.of_N d).
Proof.
  intros Hd. unfold digitValue, digitChar. cbv zeta.
  rewrite N_ascii_embedding by lia.
  destruct (N.leb_spec 48 (48 + d)); [|lia].
  destruct (N.leb_spec (48 + d) 57); [|lia].
  cbn [andb]. f_equal. lia.
Qed.

Lemma decimalDigits_S (fuel : nat) (n : N) (acc : string) :
  decimalDigits (S fuel) n acc
  = if (n / 10 =? 0)%N then String (digitChar (n mod 10)) acc
    else decimalDigits fuel (n / 10) (String (digitChar (n mod 10)) acc).
Proof. reflexivity. Qed.

(** Scanning the digits written for [n] continues from [a * 10^k + n],
    [k] being the number of digits. *)
Lemma scanDigits_decimalDigits (fuel : nat) :
  forall (n : N) (acc : string),
    (n < 2 ^ N.of_nat (S fuel))%N ->
    exists k : Z, 0 <= k /\ forall a seen,
      scanDigits (decimalDigits (S fuel) n acc) a seen
      = scanDigits acc (a * 10 ^ k + Z.of_N n) true.
Proof.
  induction fuel as [|fuel IH]; intros n acc Hn.
  - change (2 ^ N.of_nat 1)%N with 2%N in Hn.
    exists 1. split; [lia|]. intros a seen.
    rewrite decimalDigits_S.
    assert (n / 10 = 0)%N as -> by (apply N.div_small; lia).
    rewrite N.mod_small by lia.
    cbn [N.eqb scanDigits].
    rewrite digitValue_digitChar by lia. f_equal; lia.
  - assert (n mod 10 < 10)%N as Hd by (apply N.mod_lt; lia).
    pose proof (N.div_mod n 10 ltac:(lia)) as Hdm.
    rewrite decimalDigits_S.
    destruct (N.eqb_spec (n / 10) 0) as [Hzero|Hmore].
    + exists 1. split; [lia|]. intros a seen. cbn [scanDigits].
      rewrite (digitValue_digitChar _ Hd). f_equal; lia.
    + destruct (IH (n / 10)%N (String (digitChar (n mod 10)) acc)) as (k & Hk & Hscan).
      { rewrite Nat2N.inj_succ, N.pow_succ_r' in Hn.
        apply N.Div0.div_lt_upper_bound. lia. }
      exists (k + 1). split; [lia|]. intros a seen.
      rewrite Hscan. cbn [scanDigits].
      rewrite (digitValue_digitChar _ Hd). f_equal.
      rewrite Z.pow_add_r by lia. change (10 ^ 1) with 10. lia.
Qed.

Lemma naturalToString_fuel (n : N) : (n < 2 ^ N.of_nat (S (N.to_nat (N.log2 n))))%N.
Proof.
  rewrite Nat2N.inj_succ, N2Nat.id.
  destruct (N.eq_dec n 0%N) as [->|Hpos]; [done|].
  apply N.log2_spec. lia.
Qed.

Lemma scanDigits_naturalToString (n : N) :
  exists k : Z, 0 <= k /\ forall a seen,
    scanDigits (naturalToString n) a seen = Some (a * 10 ^ k + Z.of_N n).
Proof.
  destruct (scanDigits_decimalDigits _ n EmptyString (naturalToString_fuel n))
    as (k & Hk & Hscan).
  exists k. split; [done|]. intros a seen.
  unfold naturalToString. by rewrite Hscan.
Qed.

Lemma isDigitString_decimalDigits (fuel : nat) :
  forall (n : N) (acc : string),
    isDigitString acc = true ->
    isDigitString (decimalDigits fuel n acc) = true.
Proof.
  induction fuel as [|fuel IH]; intros n acc Hacc; [done|].
  cbn [decimalDigits].
  assert (isDigitString (String (digitChar (n mod 10)) acc) = true) as Hnext.
  { cbn [isDigitString].
    rewrite digitValue_digitChar by (apply N.mod_lt; lia). done. }
  destruct (n / 10 =? 0)%N; [done|]. by apply IH.
Qed.

Lemma isDigitString_naturalToString (n : N) :
  isDigitString (naturalToString n) = true.
Proof. by apply isDigitString_decimalDigits. Qed.

Lemma isDigitString_app (s t : string) :
  isDigitString s = true -> isDigitString t = true ->
  isDigitString (s +:+ t) = true.
Proof.
  induction s as [|c s IH]; intros Hs Ht; [done|].
  simpl in *.
  destruct (digitValue c); [by apply IH | done].
Qed.

Lemma isDigitString_repeat_zero (n : nat) :
  isDigitString (repeatChar n "0") = true.
Proof. induction n as [|n IH]; [done|]. cbn [repeatChar isDigitString]. done. Qed.

Lemma isDigitString_padStart (s : string) :
  isDigitString s = true -> isDigitString (padStart 2 "0" s) = true.
Proof.
  intros Hs. unfold padStart.
  apply isDigitString_app; [apply isDigitString_repeat_zero | done].
Qed.

(** Zeros in front do not change what is read. *)
Lemma scanDigits_repeat_zero (n : nat) (s : string) (seen : bool) :
  scanDigits (repeatChar n "0" +:+ s) 0 seen
  = scanDigits s 0 (match n with O => seen | S _ => true end).
Proof.
  revert seen. induction n as [|n IH]; intros seen; [done|].
  change (scanDigits (repeatChar n "0" +:+ s) 0 true
          = scanDigits s 0 true).
  rewrite (IH true). by destruct n.
Qed.

(** A digit is neither white space, nor a sign, nor a colon. *)
Lemma digit_not_special (c : ascii) (d : Z) :
  digitValue c = Some d ->
  isWhiteSpace c = false /\ c <> "-"%char /\ c <> "+"%char /\ c <> ":"%char.
Proof.
  unfold digitValue, isWhiteSpace. cbv zeta.
  intros Hd.
  destruct (N.leb_spec 48 (N_of_ascii c)) as [Hlo|]; [|discriminate].
  destruct (N.leb_spec (N_of_ascii c) 57) as [Hhi|]; [|discriminate].
  split.
  { destruct (N.leb_spec 9 (N_of_ascii c)); destruct (N.leb_spec (N_of_ascii c) 13);
      destruct (N.eqb_spec (N_of_ascii c) 32); destruct (N.eqb_spec (N_of_ascii c) 160);
      cbn; (done || lia). }
  repeat split; intros ->; vm_compute in Hlo, Hhi; done.
Qed.

Lemma parseInt10_digits (s : string) :
  isDigitString s = true ->
  parseInt10 s = scanDigits s 0 false.
Proof.
  destruct s as [|c rest]; [done|].
  cbn [isDigitString]. destruct (digitValue c) as [d|] eqn:Hd; [|done].
  intros _. destruct (digit_not_special c d Hd) as (Hws & Hminus & Hplus & _).
  unfold parseInt10. cbn [trimStart]. rewrite Hws.
  destruct c as [[] [] [] [] [] [] [] []]; try reflexivity; done.
Qed.

Lemma numberToString_nonneg (n : Z) :
  0 <= n -> numberToString n = naturalToString (Z.to_N n).
Proof.
  intros Hn. unfold numberToString.
  destruct (Z.ltb_spec n 0); [lia | done].
Qed.

(** What [formatSecondsToDuration] writes for a field is read back by
    [parseInt]. *)
Lemma parseInt10_padStart (n : Z) :
  0 <= n ->
  parseInt10 (padStart 2 "0" (numberToString n)) = Some n.
Proof.
  intros Hn. rewrite numberToString_nonneg by done.
  rewrite parseInt10_digits
    by (apply isDigitString_padStart, isDigitString_naturalToString).
  unfold padStart. rewrite scanDigits_repeat_zero.
  destruct (scanDigits_naturalToString (Z.to_N n)) as (k & Hk & ->).
  f_equal. lia.
Qed.

Lemma isDigitString_field (n : Z) :
  0 <= n -> isDigitString (padStart 2 "0" (numberToString n)) = true.
Proof.
  intros Hn. rewrite numberToString_nonneg by done.
  apply isDigitString_padStart, isDigitString_naturalToString.
Qed.

Lemma split_nonempty (sep : ascii) (s : string) : split sep s <> [].
Proof.
  destruct s as [|c rest]; [done|]. cbn [split].
  destruct (Ascii.eqb c sep); [done|]. by destruct (split sep rest).
Qed.

Lemma split_digits (s : string) :
  isDigitString s = true -> split ":" s = [s].
Proof.
  induction s as [|c s IH]; [done|].
  cbn [isDigitString split]. destruct (digitValue c) as [d|] eqn:Hd; [|done].
  intros Hs. destruct (digit_not_special c d Hd) as (_ & _ & _ & Hcolon).
  destruct (Ascii.eqb_spec c ":") as [|_]; [done|]. by rewrite IH.
Qed.

Lemma split_digits_colon (s t : string) :
  isDigitString s = true ->
  split ":" (s +:+ String ":" t) = s :: split ":" t.
Proof.
  induction s as [|c s IH]; [done|].
  cbn [isDigitString]. destruct (digitValue c) as [d|] eqn:Hd; [|done].
  intros Hs. destruct (digit_not_special c d Hd) as (_ & _ & _ & Hcolon).
  change (String c s +:+ String ":" t) with (String c (s +:+ String ":" t)).
  cbn [split].
  destruct (Ascii.eqb_spec c ":") as [|_]; [done|]. by rewrite IH.
Qed.

Lemma split_length (s : string) :
  length (split ":" s) = S (countChar ":" s).
Proof.
  induction s as [|c s IH]; [done|]. cbn [split countChar].
  destruct (Ascii.eqb c ":").
  - cbn [length]. by rewrite IH.
  - destruct (split ":" s) as [|piece pieces] eqn:Hsplit; [|done].
    by apply split_nonempty in Hsplit.
Qed.

(** *** Numbers below 2^53 *)

Lemma nearestEven_spec (n d : Z) :
  0 <= n -> 0 < d ->
  n / d <= nearestEven n d <= n / d + 1
  /\ (nearestEven n d = n / d + 1 -> d <= 2 * (n mod d)).
Proof.
  intros Hn Hd. unfold nearestEven. cbv zeta.
  destruct (Z.ltb_spec (2 * (n mod d)) d) as [Hlow|Hhigh]; [lia|].
  destruct (Z.ltb_spec d (2 * (n mod d))) as [Hup|Htie]; [lia|].
  destruct (Z.even (n / d)); lia.
Qed.

Lemma exponentOf_le (a b : Z) : exponentOf a b <= Z.log2 a - Z.log2 b.
Proof.
  unfold exponentOf. cbv zeta.
  destruct (if 0 <=? _ then _ else _); lia.
Qed.

(** Below 2^53 the floor of the rounded quotient is the floor of the
    quotient: the quotient is too far from the next integer to be
    rounded up to it. *)
Lemma floorNumber_divideNumbers (a b : Z) :
  0 <= a < 2 ^ 53 -> 0 < b ->
  floorNumber (divideNumbers a b) = a / b.
Proof.
  intros [Ha Hsafe] Hb. unfold divideNumbers.
  destruct (Z.eqb_spec a 0) as [->|Hne]; [rewrite Z.div_0_l by lia; reflexivity|].
  cbv zeta. rewrite Z.abs_eq, Z.sgn_pos, Z.mul_1_l by lia.
  pose proof (exponentOf_le a b) as Hexp.
  assert (Z.log2 a < 53) as Hla by (apply Z.log2_lt_pow2; lia).
  pose proof (Z.log2_nonneg b) as Hlb.
  destruct (Z.log2_spec b Hb) as [_ Hbup].
  set (e := exponentOf a b - 52) in *.
  assert (e <= 0) as He by lia.
  destruct (Z.leb_spec e 0) as [_|]; [|lia].
  set (P := 2 ^ (- e)).
  assert (0 < P) as HP by (apply Z.pow_pos_nonneg; lia).
  assert (b < 2 * P) as HbP.
  { unfold P. replace (2 * 2 ^ (- e)) with (2 ^ (Z.succ (- e)))
      by (rewrite Z.pow_succ_r; lia).
    eapply Z.lt_le_trans; [exact Hbup|].
    apply Z.pow_le_mono_r; lia. }
  destruct (nearestEven_spec (a * P) b) as [[Hlo Hhi] Hup]; [lia | lia |].
  set (m := nearestEven (a * P) b) in *.
  assert (floorNumber (m, e) = m / P) as ->.
  { unfold floorNumber. destruct (Z.leb_spec 0 e) as [Hpos|Hneg]; [|done].
    assert (e = 0) as He0 by lia. unfold P. rewrite He0.
    change (2 ^ 0) with 1. change (2 ^ (- 0)) with 1.
    by rewrite Z.mul_1_r, Z.div_1_r. }
  symmetry. apply Z.div_unique_pos with (r := m - a / b * P).
  2: lia.
  pose proof (Z.div_mod a b ltac:(lia)) as Hab.
  pose proof (Z.mod_pos_bound a b Hb) as Hr.
  pose proof (Z.div_mod (a * P) b ltac:(lia)) as HaP.
  pose proof (Z.mod_pos_bound (a * P) b Hb) as HrP.
  set (k := a / b) in *. set (t := a mod b) in *.
  set (q := a * P / b) in *. set (r := (a * P) mod b) in *.
  assert (k * P <= q) by nia.
  assert (q < (k + 1) * P) by nia.
  split; [lia|].
  destruct (Z.eq_dec m (q + 1)) as [Heq|Hneq]; [|lia].
  specialize (Hup Heq). nia.
Qed.

(** The integers up to 2^53 are Numbers. *)
Lemma toNumber_safe (x : Z) : 0 <= x <= 2 ^ 53 -> toNumber x = x.
Proof.
  intros [Hx Hsafe]. unfold toNumber.
  destruct (Z.eq_dec x (2 ^ 53)) as [->|Hne]; [by vm_compute|].
  rewrite floorNumber_divideNumbers by lia. apply Z.div_1_r.
Qed.

Lemma toNumber_nonneg (x : Z) : 0 <= x -> 0 <= toNumber x.
Proof.
  intros Hx. unfold toNumber, divideNumbers.
  destruct (Z.eqb_spec x 0) as [->|Hne]; [done|].
  cbv zeta. rewrite Z.abs_eq, Z.sgn_pos, Z.mul_1_l by lia.
  set (e := exponentOf x 1 - 52).
  assert (0 <= (if e <=? 0 then nearestEven (x * 2 ^ (- e)) 1
                else nearestEven x (1 * 2 ^ e))) as Hm.
  { destruct (Z.leb_spec e 0) as [Hle|Hgt].
    - assert (0 < 2 ^ (- e)) by (apply Z.pow_pos_nonneg; lia).
      destruct (nearestEven_spec (x * 2 ^ (- e)) 1) as [[Hlo _] _]; [nia | lia |].
      rewrite Z.div_1_r in Hlo. nia.
    - assert (0 < 2 ^ e) by (apply Z.pow_pos_nonneg; lia).
      destruct (nearestEven_spec x (1 * 2 ^ e)) as [[Hlo _] _]; [lia | lia |].
      pose proof (Z.div_pos x (1 * 2 ^ e)). lia. }
  unfold floorNumber. destruct (Z.leb_spec 0 e) as [Hpos|Hneg].
  - assert (0 < 2 ^ e) by (apply Z.pow_pos_nonneg; lia). nia.
  - apply Z.div_pos; [done|]. apply Z.pow_pos_nonneg; lia.
Qed.

(** Up to [Number.MAX_SAFE_INTEGER] the seconds of three fields are
    summed exactly. *)
Lemma durationSum_safe (h m s : Z) :
  0 <= h -> 0 <= m -> 0 <= s -> h * 3600 + m * 60 + s <= MAX_SAFE_INTEGER ->
  toNumber (toNumber (toNumber (toNumber h * 3600) + toNumber (toNumber m * 60))
            + toNumber s)
  = h * 3600 + m * 60 + s.
Proof.
  unfold MAX_SAFE_INTEGER. intros Hh Hm Hs Hsum.
  rewrite (toNumber_safe h), (toNumber_safe m), (toNumber_safe s) by lia.
  rewrite (toNumber_safe (h * 3600)), (toNumber_safe (m * 60)) by lia.
  rewrite (toNumber_safe (h * 3600 + m * 60)) by lia.
  apply toNumber_safe. lia.
Qed.

(** Up to [Number.MAX_SAFE_INTEGER] the fields are the exact quotients
    and remainders. *)
Lemma formatSecondsToDuration_safe (n : Z) :
  0 <= n <= MAX_SAFE_INTEGER ->
  formatSecondsToDuration n
  = padStart 2 "0" (numberToString (n / 3600)) +:+ ":"
    +:+ padStart 2 "0" (numberToString (Z.rem n 3600 / 60)) +:+ ":"
    +:+ padStart 2 "0" (numberToString (Z.rem n 60)).
Proof.
  unfold MAX_SAFE_INTEGER. intros [Hn Hsafe]. unfold formatSecondsToDuration.
  cbv zeta. rewrite (floorNumber_divideNumbers n 3600) by lia.
  rewrite (floorNumber_divideNumbers (Z.rem n 3600) 60); [done | | lia].
  rewrite Z.rem_mod_nonneg by lia.
  pose proof (Z.mod_pos_bound n 3600). lia.
Qed.

Lemma formatSecondsToDuration_split (n : Z) :
  0 <= n <= MAX_SAFE_INTEGER ->
  split ":" (formatSecondsToDuration n)
  = [ padStart 2 "0" (numberToString (n / 3600));
      padStart 2 "0" (numberToString (Z.rem n 3600 / 60));
      padStart 2 "0" (numberToString (Z.rem n 60)) ].
Proof.
  intros Hsafe. rewrite formatSecondsToDuration_safe by done.
  destruct Hsafe as [Hn _].
  assert (0 <= n / 3600) by (apply Z.div_pos; lia).
  assert (0 <= Z.rem n 3600 / 60)
    by (apply Z.div_pos; [apply Z.rem_nonneg|]; lia).
  assert (0 <= Z.rem n 60) by (apply Z.rem_nonneg; lia).
  change (":" +:+ ?x) with (String ":"%char x).
  rewrite split_digits_colon by (by apply isDigitString_field).
  change (":" +:+ padStart 2 "0" (numberToString (Z.rem n 60)))
    with (String ":"%char (padStart 2 "0" (numberToString (Z.rem n 60)))).
  rewrite split_digits_colon by (by apply isDigitString_field).
  rewrite split_digits by (by apply isDigitString_field).
  done.
Qed.

Lemma parseDurationToSeconds_parts (s : string) :
  length (split ":" s) <> 3%nat -> parseDurationToSeconds s = 0.
Proof.
  intros Hlen. unfold parseDurationToSeconds. cbv zeta.
  destruct (Nat.eqb_spec (length (split ":" s)) 3); [done | done].
Qed.

(** C10 as stated fails.  70225653656714584 is a natural number and a
    Number; it is formatted as "19507126015754:03:04", and parsing that
    gives 70225653656714576: the hours make 70225653656714400 seconds,
    and of the two sums that follow, 70225653656714580 and again
    70225653656714580, neither is a Number; each is rounded down to the
    neighbour with the even significand. *)
Lemma large_duration_not_restored :
  toNumber 70225653656714584 = 70225653656714584
  /\ formatSecondsToDuration 70225653656714584 = "19507126015754:03:04"
  /\ parseDurationToSeconds (formatSecondsToDuration 70225653656714584)
     = 70225653656714576
  /\ parseDurationToSeconds (formatSecondsToDuration 70225653656714584)
     <> 70225653656714584.
Proof.
  assert (parseDurationToSeconds (formatSecondsToDuration 70225653656714584)
          = 70225653656714576) as Hback by (vm_compute; reflexivity).
  split; [vm_compute; reflexivity|]. split; [vm_compute; reflexivity|].
  split; [exact Hback|]. rewrite Hback. discriminate.
Qed.

(** C10, amended.  For every natural number [n] of seconds up to
    [Number.MAX_SAFE_INTEGER], parsing the formatted duration gives [n]
    back; and every string that does not split at its colons into
    exactly three parts, that is, every string that does not hold
    exactly two colons, parses to 0. *)
Theorem duration_roundtrip :
  (forall n : Z, 0 <= n <= MAX_SAFE_INTEGER ->
     parseDurationToSeconds (formatSecondsToDuration n) = n)
  /\ (forall s : string, length (split ":" s) <> 3%nat ->
        parseDurationToSeconds s = 0)
  /\ (forall s : string, countChar ":" s <> 2%nat ->
        parseDurationToSeconds s = 0).
Proof.
  split; [|split].
  - intros n Hsafe. unfold parseDurationToSeconds. cbv zeta.
    rewrite formatSecondsToDuration_split by done.
    destruct Hsafe as [Hn Hsafe].
    cbn [length Nat.eqb negb nth].
    assert (0 <= n / 3600) by (apply Z.div_pos; lia).
    assert (0 <= Z.rem n 3600 / 60)
      by (apply Z.div_pos; [apply Z.rem_nonneg|]; lia).
    assert (0 <= Z.rem n 60) by (apply Z.rem_nonneg; lia).
    rewrite !parseInt10_padStart by done. cbn [orZero].
    rewrite durationSum_safe; try done.
    + rewrite !Z.rem_mod_nonneg by lia. Z.div_mod_to_equations. lia.
    + rewrite !Z.rem_mod_nonneg by lia. Z.div_mod_to_equations. lia.
  - apply parseDurationToSeconds_parts.
  - intros s Hcount. apply parseDurationToSeconds_parts.
    rewrite split_length. lia.
Qed.

Lemma duration_roundtrip_witness :
  parseDurationToSeconds (formatSecondsToDuration 3725) = 3725
  /\ parseDurationToSeconds "12:34" = 0.
Proof.
  split.
  - apply (proj1 duration_roundtrip 3725). unfold MAX_SAFE_INTEGER. lia.
  - apply (proj1 (proj2 duration_roundtrip) "12:34"). vm_compute. lia.
Defined.

End DurationProperties.

(** * Further properties of the request handlers *)

(** ** The two cached routes *)









(** The handler only ever touches the cache entry of its own key. *)
Lemma batteryHandler_other_key findBatteryById (batteryIdMap : PlainObject)
    batteryId now later (apiCache : gmap string CacheEntry) key' :
  key' <> "battery_" +:+ toStringP (getProperty batteryIdMap batteryId) ->
  cacheAfter (batteryHandler findBatteryById batteryIdMap batteryId now later apiCache)
    !! key' = apiCache !! key'.
Proof.
  intros Hne. unfold batteryHandler.
  set (key := "battery_" +:+ toStringP (getProperty batteryIdMap batteryId)) in *.
  pose proof (getCachedData_other key key' now apiCache Hne) as Hother.
  destruct (getCachedData key now apiCache) as [cachedData apiCache1].
  cbn [snd] in Hother.
  destruct (truthy cachedData); [done|].
  destruct (findBatteryById (getProperty batteryIdMap batteryId)) as [result|];
    [|done].
  destruct (readField result "success") as [success|]; [|done].
  destruct (truthy success); [|done].
  cbn [cacheAfter]. unfold apiCache_set. by rewrite lookup_insert_ne.
Qed.

(** X4.  Whatever the request to [GET /api/battery/:batteryId] and
    however it ends (rejected, served from the cache, found, not found,
    failed), every cache entry other than the one of the battery's own
    key is left as it was; in particular the battery route never evicts
    or overwrites the station list. *)
Theorem battery_route_other_keys findBatteryById (production : bool)
    (batteryIdMap : PlainObject) (batteryId : string) (now later : Z)
    (apiCache : gmap string CacheEntry) :
  let out := batteryRoute findBatteryById production batteryIdMap batteryId
               now later apiCache in
  (forall key', key' <> "battery_" +:+ toStringP (getProperty batteryIdMap batteryId) ->
     cacheAfter out !! key' = apiCache !! key')
  /\ cacheAfter out !! "stations" = apiCache !! "stations".
Proof.
  cbv zeta.
  assert (forall key',
            key' <> "battery_" +:+ toStringP (getProperty batteryIdMap batteryId) ->
            cacheAfter (batteryRoute findBatteryById production batteryIdMap batteryId
                          now later apiCache) !! key' = apiCache !! key') as Hother.
  { intros key' Hne. unfold batteryRoute.
    destruct (validateBatteryId batteryIdMap batteryId); [done| |done].
    by apply batteryHandler_other_key. }
  split; [exact Hother|]. apply Hother. discriminate.
Qed.



(** ** Stations that have a static record *)

Lemma setProperty_own_other (o : PlainObject) k k' fields :
  k' <> k -> k <> "__proto__" ->
  own (setProperty o k' fields) !! k = own o !! k.
Proof.
  intros Hne Hk. unfold setProperty.
  destruct (String.eqb k' "__proto__" && _); cbn [own]; [done|].
  by rewrite lookup_insert_ne.
Qed.

Lemma setProperty_own_same (o : PlainObject) k fields :
  k <> "__proto__" ->
  own (setProperty o k fields) !! k = Some (JSObject fields).
Proof.
  intros Hk. unfold setProperty.
  destruct (String.eqb_spec k "__proto__") as [|_]; [done|].
  cbn [andb own]. apply lookup_insert_eq.
Qed.

Lemma fold_setProperty_keeps (k : string) (v : JSValue)
    (stations : list (list (string * JSValue))) (o : PlainObject) :
  k <> "__proto__" ->
  Forall (fun station => stationKey station <> k) stations ->
  own o !! k = Some v ->
  own (fold_left (fun stationInfoMap station =>
                    setProperty stationInfoMap (stationKey station) station)
                 stations o) !! k = Some v.
Proof.
  intros Hk. revert o. induction stations as [|station rest IH]; intros o Hall Hown.
  - done.
  - inversion Hall as [|? ? Hhead Hrest]; subst. cbn [fold_left].
    apply IH; [done|]. by rewrite setProperty_own_other.
Qed.

(** The static record found for a key is the last one listed with it. *)
Lemma buildStationInfoMap_last (before after : list (list (string * JSValue)))
    (station : list (string * JSValue)) :
  stationKey station <> "__proto__" ->
  Forall (fun later => stationKey later <> stationKey station) after ->
  getProperty (buildStationInfoMap (before ++ station :: after)) (stationKey station)
  = PData (JSObject station).
Proof.
  intros Hk Hafter. unfold buildStationInfoMap, getProperty.
  rewrite fold_left_app. cbn [fold_left].
  rewrite (fold_setProperty_keeps _ (JSObject station)); [done | done | done |].
  by apply setProperty_own_same.
Qed.

(** X6.  A supplier station whose id has a static record is merged with
    that record: the static name, address, coordinates and hours are used
    wherever they are truthy, the defaults ("Station " and the id, the
    empty string, [0, 0], [null]) where they are missing or falsy, and
    [isOpen] is true.  When several static records carry the same id,
    the last one listed is the one used. *)
Theorem merged_station_static_record
    (before after : list (list (string * JSValue)))
    (station : list (string * JSValue)) (stationData : StationData) :
  stationKey station = toString (sd_id stationData) ->
  stationKey station <> "__proto__" ->
  Forall (fun later => stationKey later <> stationKey station) after ->
  let merged := mergeStation (buildStationInfoMap (before ++ station :: after))
                  stationData in
  let static k := default JSUndefined (ownField station k) in
  id merged = sd_id stationData
  /\ name merged = jsOr (static "name")
                     (JSString ("Station " +:+ toString (sd_id stationData)))
  /\ address merged = jsOr (static "address") (JSString "")
  /\ coordinates merged = jsOr (static "coordinates") (JSArray [JSNumber 0; JSNumber 0])
  /\ hours merged = jsOr (static "hours") JSNull
  /\ isOpen merged = JSBool true.
Proof.
  intros Hkey Hproto Hafter. cbv zeta. unfold mergeStation.
  rewrite <- Hkey, buildStationInfoMap_last by done.
  cbn [optionalField readField id name address coordinates hours isOpen].
  repeat split; try done.
  by destruct (truthy _).
Qed.

Lemma merged_station_static_record_witness :
  name (mergeStation
          (buildStationInfoMap
             ([[("id", JSString "S1"); ("name", JSString "Old")]]
              ++ [("id", JSString "S1"); ("name", JSString "Cafe")] :: []))
          {| sd_id := JSString "S1"; sd_available := JSNumber 3;
             sd_occupied := JSNumber 1; sd_error := JSBool false |})
  = JSString "Cafe".
Proof.
  apply (merged_station_static_record
           [[("id", JSString "S1"); ("name", JSString "Old")]] []
           [("id", JSString "S1"); ("name", JSString "Cafe")]
           {| sd_id := JSString "S1"; sd_available := JSNumber 3;
              sd_occupied := JSNumber 1; sd_error := JSBool false |}).
  - reflexivity.
  - vm_compute. discriminate.
  - constructor.
Defined.

(** * The station API client and the management routes *)

Section LocationProperties.

Import Locations Admin.

Variable parseFloat : JSValue -> JSValue.
Variable fetch : Request -> FetchOutcome.

(** The station built from a record that is neither [undefined] nor
    [null]. *)
Lemma internalStation_some (withUpdatedAt : bool) (station : JSValue) :
  station <> JSUndefined -> station <> JSNull ->
  exists fields,
    internalStation parseFloat withUpdatedAt station = Some fields
    /\ ownField fields "id" = Some (default JSUndefined (readField station "id"))
    /\ ownField fields "name" = Some (default JSUndefined (readField station "title"))
    /\ ownField fields "coordinates"
       = Some (JSArray
                 [parseFloat (default JSUndefined (readField station "longitude"));
                  parseFloat (default JSUndefined (readField station "latitude"))])
    /\ ownField fields "address" = None
    /\ ownField fields "hours" = None.
Proof.
  intros Hu Hn. destruct station; try done; destruct withUpdatedAt; eexists; done.
Qed.

Lemma internalStations_map (elems : list JSValue) :
  Forall (fun e => e <> JSUndefined /\ e <> JSNull) elems ->
  exists stations,
    internalStations parseFloat elems = Some stations
    /\ Forall2 (fun e fields => internalStation parseFloat true e = Some fields)
         elems stations.
Proof.
  induction elems as [|e elems IH]; intros Hall.
  - exists []. split; [done | constructor].
  - inversion Hall as [|? ? [Hu Hn] Hrest]; subst.
    destruct (IH Hrest) as (stations & Heq & Hforall).
    destruct (internalStation_some true e Hu Hn) as (fields & Hfields & _).
    exists (fields :: stations). cbn [internalStations].
    rewrite Hfields, Heq. split; [done|]. by constructor.
Qed.

Lemma internalStations_null (elems : list JSValue) :
  Exists (fun e => e = JSUndefined \/ e = JSNull) elems ->
  internalStations parseFloat elems = None.
Proof.
  induction 1 as [e elems [-> | ->]|e elems Hex IH]; cbn [internalStations].
  - done.
  - done.
  - rewrite IH. by destruct (internalStation parseFloat true e).
Qed.

(** X7.  [locationManager.getAll()] never fails: it gives the empty
    list whenever the request is rejected, the answer is not [ok] or its
    body is not JSON, and also when a single record of the answer is
    [null]; an answer with [success] and an array of records gives one
    station per record, in the order of the answer, each built from its
    record. *)
Theorem getAll_all_or_nothing :
  ((forall status result,
      fetch getAllRequest <> Answered true status (inl result)) ->
   getAll parseFloat fetch = [])
  /\ (forall status result success elems,
        fetch getAllRequest = Answered true status (inl result) ->
        readField result "success" = Some success -> truthy success = true ->
        readField result "data" = Some (JSArray elems) ->
        (Exists (fun e => e = JSUndefined \/ e = JSNull) elems ->
         getAll parseFloat fetch = [])
        /\ (Forall (fun e => e <> JSUndefined /\ e <> JSNull) elems ->
            Forall2 (fun e fields => internalStation parseFloat true e = Some fields)
              elems (getAll parseFloat fetch))).
Proof.
  split.
  - intros Hbad. unfold getAll.
    destruct (fetch getAllRequest) as [message|[] status [result|message]];
      try done.
    by destruct (Hbad status result).
  - intros status result success elems Hfetch Hsuccess Htruthy Hdata.
    unfold getAll. rewrite Hfetch, Hsuccess, Hdata, Htruthy. cbn [andb truthy].
    split.
    + intros Hex. by rewrite internalStations_null.
    + intros Hall. destruct (internalStations_map elems Hall) as (stations & -> & H).
      exact H.
Qed.


(** Every station of [getAll] is built from a record of the answer. *)
Lemma getAll_built (station : list (string * JSValue)) :
  station ∈ getAll parseFloat fetch ->
  exists e, internalStation parseFloat true e = Some station.
Proof.
  unfold getAll.
  destruct (fetch getAllRequest) as [message|[] status [result|message]];
    try (intros H; by apply elem_of_nil in H).
  destruct (readField result "success") as [success|];
    [|intros H; by apply elem_of_nil in H].
  destruct (readField result "data") as [[| | | | | |elems|]|];
    try (destruct (truthy success && _); intros H; by apply elem_of_nil in H);
    try (intros H; by apply elem_of_nil in H).
  destruct (truthy success && _); [|intros H; by apply elem_of_nil in H].
  assert (Hgen : forall stations, internalStations parseFloat elems = Some stations ->
            station ∈ stations ->
            exists e, internalStation parseFloat true e = Some station).
  { clear. induction elems as [|e elems IH]; intros stations Heq Hin.
    - injection Heq as <-. by apply elem_of_nil in Hin.
    - cbn [internalStations] in Heq.
      destruct (internalStation parseFloat true e) as [s|] eqn:Hs; [|done].
      destruct (internalStations parseFloat elems) as [l|]; [|done].
      injection Heq as <-. apply elem_of_cons in Hin as [->|Hin].
      + by exists e.
      + by apply (IH l). }
  destruct (internalStations parseFloat elems) as [stations|]; cbn [default].
  - by apply Hgen.
  - intros H. by apply elem_of_nil in H.
Qed.

Lemma internalStation_no_address (withUpdatedAt : bool) e station :
  internalStation parseFloat withUpdatedAt e = Some station ->
  ownField station "address" = None /\ ownField station "hours" = None.
Proof.
  destruct e, withUpdatedAt; intros H; try done; by injection H as <-.
Qed.

(** Folding [stationInfoMap[station.id] = station] over stations none of
    which has the key [__proto__] keeps the prototype, and every own
    property is one of the stations. *)
Lemma fold_setProperty_own (stations : list (list (string * JSValue)))
    (o : PlainObject) :
  Forall (fun station => stationKey station <> "__proto__") stations ->
  let o' := fold_left (fun stationInfoMap station =>
                         setProperty stationInfoMap (stationKey station) station)
                      stations o in
  proto o' = proto o
  /\ forall k v, own o' !! k = Some v ->
       own o !! k = Some v \/ exists station, station ∈ stations /\ v = JSObject station.
Proof.
  revert o. induction stations as [|station rest IH]; intros o Hall; cbn [fold_left].
  - split; [done|]. intros k v H. by left.
  - inversion Hall as [|? ? Hhead Hrest]; subst.
    destruct (IH (setProperty o (stationKey station) station) Hrest) as [Hproto Hown].
    assert (Hset : setProperty o (stationKey station) station
                   = {| own := <[stationKey station := JSObject station]> (own o);
                        proto := proto o |}).
    { unfold setProperty.
      destruct (String.eqb_spec (stationKey station) "__proto__") as [|_]; done. }
    split.
    + cbv zeta in Hproto. rewrite Hproto, Hset. done.
    + intros k v Hk. destruct (Hown k v Hk) as [Hold|(s & Hin & ->)].
      * rewrite Hset in Hold. cbn [own] in Hold.
        destruct (decide (stationKey station = k)) as [<-|Hne].
        -- rewrite lookup_insert_eq in Hold. injection Hold as <-.
           right. exists station. split; [apply elem_of_cons; by left | done].
        -- rewrite lookup_insert_ne in Hold by done. by left.
      * right. exists s. split; [apply elem_of_cons; by right | done].
Qed.

(** X8.  The stations the station API provides carry neither an address
    nor opening hours, so whatever the API answers and whatever the
    supplier reports, a station of [GET /api/stations] has the empty
    string as its address, [null] as its hours and is open (provided no
    station of the API has the id [__proto__]). *)
Theorem merged_station_no_address (stationData : StationData) :
  Forall (fun station => stationKey station <> "__proto__")
    (getAll parseFloat fetch) ->
  let merged := mergeStation (buildStationInfoMap (getAll parseFloat fetch))
                  stationData in
  address merged = JSString "" /\ hours merged = JSNull
  /\ isOpen merged = JSBool true.
Proof.
  intros Hkeys. cbv zeta.
  destruct (fold_setProperty_own (getAll parseFloat fetch) emptyObject Hkeys)
    as [Hproto Hown].
  cbv zeta in Hproto, Hown. fold (buildStationInfoMap (getAll parseFloat fetch)) in *.
  assert (Hinfo : forall k, k = "address" \/ k = "hours" ->
            optionalField (getProperty (buildStationInfoMap (getAll parseFloat fetch))
                             (toString (sd_id stationData))) k = JSUndefined).
  { intros k Hk. unfold getProperty.
    destruct (own _ !! _) as [v|] eqn:Hv.
    - destruct (Hown _ _ Hv) as [Hempty|(station & Hin & ->)].
      + cbn [own emptyObject] in Hempty. by rewrite lookup_empty in Hempty.
      + destruct (getAll_built station Hin) as (e & He).
        destruct (internalStation_no_address true e station He) as [Ha Hh].
        cbn [optionalField readField]. by destruct Hk as [-> | ->]; rewrite ?Ha, ?Hh.
    - rewrite Hproto. cbn [proto emptyObject]. unfold objectPrototypeGet.
      destruct (String.eqb _ "__proto__"); [by destruct Hk as [-> | ->]|].
      destruct (String.eqb _ "constructor"); [by destruct Hk as [-> | ->]|].
      destruct (isObjectPrototypeMethod _); by destruct Hk as [-> | ->]. }
  unfold mergeStation. cbn [address hours isOpen].
  rewrite !Hinfo by (by left + by right). done.
Qed.

End LocationProperties.

Lemma merged_station_no_address_witness :
  address
    (mergeStation
       (buildStationInfoMap
          (Locations.getAll (fun v => v)
             (fun _ => Answered true 200
                         (inl (JSObject
                                 [ ("success", JSBool true);
                                   ("data",
                                    JSArray
                                      [JSObject [ ("id", JSString "S1");
                                                  ("title", JSString "Cafe");
                                                  ("address", JSString "1 Main St");
                                                  ("latitude", JSString "41.9");
                                                  ("longitude", JSString "-87.6") ]])
                                 ])))))
       {| sd_id := JSString "S1"; sd_available := JSNumber 3;
          sd_occupied := JSNumber 1; sd_error := JSBool false |})
  = JSString "".
Proof.
  apply (merged_station_no_address (fun v => v)
           (fun _ => Answered true 200
                       (inl (JSObject
                               [ ("success", JSBool true);
                                 ("data",
                                  JSArray
                                    [JSObject [ ("id", JSString "S1");
                                                ("title", JSString "Cafe");
                                                ("address", JSString "1 Main St");
                                                ("latitude", JSString "41.9");
                                                ("longitude", JSString "-87.6") ]])
                               ])))
           {| sd_id := JSString "S1"; sd_available := JSNumber 3;
              sd_occupied := JSNumber 1; sd_error := JSBool false |}).
  repeat constructor. vm_compute. discriminate.
Defined.

Section AdminProperties.

Import Locations Admin.

Variable parseFloat : JSValue -> JSValue.
Variable fetch : Request -> FetchOutcome.

Lemma isPair_inv (v : JSValue) :
  isPair v = true -> exists longitude latitude, v = JSArray [longitude; latitude].
Proof.
  destruct v as [| | | | | |[|longitude [|latitude [|]]]|]; try done.
  intros _. by exists longitude, latitude.
Qed.

(** The requests of [add] for a pair of coordinates. *)
Lemma add_pair (id name longitude latitude : JSValue)
    (rest : list (string * JSValue)) :
  add parseFloat fetch id
    (("name", name) :: ("coordinates", JSArray [longitude; latitude]) :: rest)
  = (writtenStation parseFloat "Failed to add station"
       (fetch (jsonRequest "POST" API_BASE_URL
                 (JSObject [ ("id", id); ("title", name);
                             ("latitude", latitude); ("longitude", longitude) ]))),
     [jsonRequest "POST" API_BASE_URL
        (JSObject [ ("id", id); ("title", name);
                    ("latitude", latitude); ("longitude", longitude) ])]).
Proof. reflexivity. Qed.

(** X9.  [POST /api/admin/stations] sends a [POST] to the station API
    only for a body with a truthy id and name and a two-element array of
    coordinates, and only after the lookup of the id has found nothing;
    the lookup and this [POST] are then the only requests, and the
    [POST] carries the id, the name as [title], the second coordinate as
    [latitude] and the first as [longitude]: address and hours are not
    forwarded. *)
Theorem postStation_forwards (body : JSValue) (request : Request) :
  request ∈ (postStation parseFloat fetch body).2 ->
  method request = "POST" ->
  let field k := default JSUndefined (readField body k) in
  exists longitude latitude,
    field "coordinates" = JSArray [longitude; latitude]
    /\ truthy (field "id") = true /\ truthy (field "name") = true
    /\ getById parseFloat fetch (field "id") = None
    /\ request = jsonRequest "POST" API_BASE_URL
                   (JSObject [ ("id", field "id"); ("title", field "name");
                               ("latitude", latitude); ("longitude", longitude) ])
    /\ (postStation parseFloat fetch body).2
       = [getByIdRequest (field "id"); request].
Proof.
  cbv zeta. unfold postStation.
  assert (Hnil : forall response : Response, request ∈ (response, @nil Request).2 -> False).
  { intros response H. by apply elem_of_nil in H. }
  destruct body; try (intros H; by destruct (Hnil _ H)); cbv zeta.
  all: set (id := default JSUndefined (readField _ "id")).
  all: set (name := default JSUndefined (readField _ "name")).
  all: set (coordinates := default JSUndefined (readField _ "coordinates")).
  all: destruct (truthy id) eqn:Hid; [|intros H; by destruct (Hnil _ H)].
  all: destruct (truthy name) eqn:Hname; [|intros H; by destruct (Hnil _ H)].
  all: destruct (truthy coordinates) eqn:Hcoordinates;
    [|intros H; by destruct (Hnil _ H)].
  all: cbn [negb orb].
  all: destruct (isPair coordinates) eqn:Hpair; [|intros H; by destruct (Hnil _ H)].
  all: cbn [negb].
  all: destruct (isPair_inv _ Hpair) as (longitude & latitude & Hshape).
  all: destruct (getById parseFloat fetch id) as [existing|] eqn:Hlookup.
  all: try (cbn [snd]; intros Hin Hmethod;
            apply list_elem_of_singleton in Hin; by subst request).
  all: rewrite Hshape; cbn [app]; rewrite add_pair.
  all: destruct (writtenStation _ _ _); cbn [snd]; intros Hin Hmethod.
  all: apply elem_of_cons in Hin as [->|Hin]; [done|].
  all: apply list_elem_of_singleton in Hin; subst request.
  all: by exists longitude, latitude.
Qed.


Lemma getById_failed (id : JSValue) :
  (forall status result,
     fetch (getByIdRequest id) <> Answered true status (inl result)) ->
  getById parseFloat fetch id = None.
Proof.
  intros Hbad. unfold getById.
  destruct (fetch (getByIdRequest id)) as [message|[] status [result|message]];
    try done.
  by destruct (Hbad status result).
Qed.

(** X10.  The routes that change or delete a station cannot tell a
    station API that is down from a station that does not exist: when
    the lookup of the id fails in any way (the request is rejected, the
    answer is not [ok], or its body is not JSON), [PUT] and [DELETE
    /api/admin/stations/:id] answer 404 "Station not found" and send
    nothing but the lookup. *)
Theorem lookup_failure_not_found (id : string) (body : JSValue) :
  (forall status result,
     fetch (getByIdRequest (JSString id)) <> Answered true status (inl result)) ->
  body <> JSUndefined -> body <> JSNull ->
  putStation parseFloat fetch id body
  = (statusJson 404 (errorObject (JSString "Station not found")),
     [getByIdRequest (JSString id)])
  /\ deleteStation parseFloat fetch id
     = (statusJson 404 (errorObject (JSString "Station not found")),
        [getByIdRequest (JSString id)]).
Proof.
  intros Hbad Hu Hn. unfold putStation, deleteStation.
  rewrite (getById_failed _ Hbad). by destruct body.
Qed.

(** X11.  [PUT /api/admin/stations/:id] for a station the lookup finds
    sends one [PATCH] to the station's URL, and its payload depends on
    the name and the coordinates of the body alone: the title when the
    name is truthy, latitude (the second coordinate) and longitude (the
    first) when coordinates are given; the address and the hours of the
    body are accepted and dropped. *)
Theorem putStation_forwards (id : string) (body : JSValue)
    (existing : list (string * JSValue)) :
  getById parseFloat fetch (JSString id) = Some existing ->
  body <> JSUndefined -> body <> JSNull ->
  let name := default JSUndefined (readField body "name") in
  let coordinates := default JSUndefined (readField body "coordinates") in
  (truthy coordinates = true -> isPair coordinates = true) ->
  (putStation parseFloat fetch id body).2
  = [ getByIdRequest (JSString id);
      jsonRequest "PATCH" (API_BASE_URL +:+ "/" +:+ id)
        (JSObject
           ((if truthy name then [("title", name)] else [])
            ++ match coordinates with
               | JSArray [longitude; latitude] =>
                   [("latitude", latitude); ("longitude", longitude)]
               | _ => []
               end)) ].
Proof.
  intros Hlookup Hu Hn. cbv zeta. unfold putStation. rewrite Hlookup.
  destruct body; try done; cbv zeta.
  all: set (name := default JSUndefined (readField _ "name")).
  all: set (address := default JSUndefined (readField _ "address")).
  all: set (coordinates := default JSUndefined (readField _ "coordinates")).
  all: set (hours := default JSUndefined (readField _ "hours")).
  all: intros Hpair.
  all: destruct (truthy coordinates) eqn:Hcoordinates.
  all: try (rewrite (Hpair eq_refl);
            destruct (isPair_inv _ (Hpair eq_refl)) as (longitude & latitude & Hshape)).
  all: cbn [negb andb].
  all: unfold update, updatePayload.
  all: destruct (writtenStation _ _ _); cbn [snd]; f_equal; f_equal.
  all: destruct (truthy name) eqn:Hname, (truthy address), (truthy hours).
  all: cbn [app ownField String.eqb Ascii.eqb Bool.eqb from_option Datatypes.id
             toString].
  all: rewrite ?Hname, ?Hcoordinates; cbn [app].
  all: try (rewrite Hshape; reflexivity).
  all: clearbody coordinates; by destruct coordinates as [| | | | | |[|? [|? [|]]]|].
Qed.

(** X12.  [DELETE /api/admin/stations/:id] reports success whenever the
    station API answers the [DELETE] with [ok] and a JSON body: the
    [success] flag of that body, which [locationManager.remove] returns,
    is not looked at. *)
Theorem deleteStation_ignores_flag (id : string)
    (existing : list (string * JSValue)) (status : Z) (result : JSValue) :
  getById parseFloat fetch (JSString id) = Some existing ->
  fetch (removeRequest (JSString id)) = Answered true status (inl result) ->
  result <> JSUndefined -> result <> JSNull ->
  deleteStation parseFloat fetch id
  = (json (JSObject [("message", JSString "Station deleted successfully")]),
     [getByIdRequest (JSString id); removeRequest (JSString id)]).
Proof.
  intros Hlookup Hfetch Hu Hn. unfold deleteStation, remove.
  rewrite Hlookup, Hfetch. by destruct result.
Qed.

End AdminProperties.

Section TokenProperties.

Import Admin.

Variable updateEnergoToken : string -> option JSValue.

(** X13.  [POST /api/energo-token] hands a token to
    [supplierApi.updateEnergoToken] only when the body's token is a
    string that is not blank, and then once, untrimmed; the answer is
    200 exactly when the call returns a truthy value and 500 otherwise.
    Every other body is answered 400 "Token is required" without the
    call. *)
Theorem postEnergoToken_calls (body : JSValue) :
  body <> JSUndefined -> body <> JSNull ->
  let response := (postEnergoToken updateEnergoToken body).1 in
  let calls := (postEnergoToken updateEnergoToken body).2 in
  match default JSUndefined (readField body "token") with
  | JSString token =>
      if String.eqb (trim token) ""
      then calls = []
           /\ response = statusJson 400 (errorObject (JSString "Token is required"))
      else calls = [token]
           /\ (status response = 200
               <-> exists success, updateEnergoToken token = Some success
                                   /\ truthy success = true)
           /\ (status response = 200 \/ status response = 500)
  | _ => calls = []
         /\ response = statusJson 400 (errorObject (JSString "Token is required"))
  end.
Proof.
  intros Hu Hn. cbv zeta. unfold postEnergoToken.
  destruct body; try done.
  all: destruct (default JSUndefined (readField _ "token")) as [| | | | |token| |];
    try done.
  all: cbn [truthy].
  all: destruct (String.eqb_spec token "") as [->|Htoken]; [done|].
  all: cbn [negb orb].
  all: destruct (String.eqb (trim token) ""); cbn [negb]; [done|].
  all: destruct (updateEnergoToken token) as [success|] eqn:Hcall.
  all: try destruct (truthy success) eqn:Hsuccess.
  all: cbn [fst snd].
  all: split; [done|]; split; [|by (left + right)].
  all: split; [|intros (v & Hv & Ht); first [reflexivity | congruence]].
  all: try done.
  all: intros _; by exists success.
Qed.

End TokenProperties.

Lemma postStation_forwards_witness :
  (Admin.postStation (fun v => v) (fun _ => FetchRejected "down")
     (JSObject [ ("id", JSString "S1"); ("name", JSString "Cafe");
                 ("address", JSString "1 Main St");
                 ("coordinates", JSArray [JSNumber 5; JSNumber 7]) ])).2
  = [ Locations.getByIdRequest (JSString "S1");
      Locations.jsonRequest "POST" Locations.API_BASE_URL
        (JSObject [ ("id", JSString "S1"); ("title", JSString "Cafe");
                    ("latitude", JSNumber 7); ("longitude", JSNumber 5) ]) ].
Proof.
  destruct (postStation_forwards (fun v => v) (fun _ => FetchRejected "down")
              (JSObject [ ("id", JSString "S1"); ("name", JSString "Cafe");
                          ("address", JSString "1 Main St");
                          ("coordinates", JSArray [JSNumber 5; JSNumber 7]) ])
              (Locations.jsonRequest "POST" Locations.API_BASE_URL
                 (JSObject [ ("id", JSString "S1"); ("title", JSString "Cafe");
                             ("latitude", JSNumber 7); ("longitude", JSNumber 5) ])))
    as (longitude & latitude & _ & _ & _ & _ & _ & Hsent).
  - apply (list_elem_of_lookup_2 _ 1%nat). reflexivity.
  - reflexivity.
  - exact Hsent.
Defined.

Lemma lookup_failure_not_found_witness :
  Admin.deleteStation (fun v => v) (fun _ => Answered false 503 (inr "Unexpected token")) "S1"
  = (statusJson 404 (errorObject (JSString "Station not found")),
     [Locations.getByIdRequest (JSString "S1")]).
Proof.
  apply (lookup_failure_not_found (fun v => v)
           (fun _ => Answered false 503 (inr "Unexpected token")) "S1" (JSObject [])).
  - intros status result. discriminate.
  - discriminate.
  - discriminate.
Defined.

Lemma putStation_forwards_witness :
  (Admin.putStation (fun v => v)
     (fun _ => Answered true 200
                 (inl (JSObject [ ("success", JSBool true);
                                  ("data", JSObject [("id", JSString "S1")]) ])))
     "S1" (JSObject [("address", JSString "1 Main St"); ("hours", JSString "9-5")])).2
  = [ Locations.getByIdRequest (JSString "S1");
      Locations.jsonRequest "PATCH" "https://api.cuub.tech/stations/S1" (JSObject []) ].
Proof.
  apply (putStation_forwards (fun v => v)
           (fun _ => Answered true 200
                       (inl (JSObject [ ("success", JSBool true);
                                        ("data", JSObject [("id", JSString "S1")]) ])))
           "S1" (JSObject [("address", JSString "1 Main St"); ("hours", JSString "9-5")])
           [ ("id", JSString "S1"); ("name", JSUndefined);
             ("coordinates", JSArray [JSUndefined; JSUndefined]);
             ("updated_at", JSUndefined) ]).
  - reflexivity.
  - discriminate.
  - discriminate.
  - discriminate.
Defined.

Lemma deleteStation_ignores_flag_witness :
  status
    (Admin.deleteStation (fun v => v)
       (fun request =>
          if String.eqb (method request) "GET"
          then Answered true 200
                 (inl (JSObject [ ("success", JSBool true);
                                  ("data", JSObject [("id", JSString "S1")]) ]))
          else Answered true 200 (inl (JSObject [("success", JSBool false)])))
       "S1").1
  = 200.
Proof.
  rewrite (deleteStation_ignores_flag (fun v => v)
             (fun request =>
                if String.eqb (method request) "GET"
                then Answered true 200
                       (inl (JSObject [ ("success", JSBool true);
                                        ("data", JSObject [("id", JSString "S1")]) ]))
                else Answered true 200 (inl (JSObject [("success", JSBool false)])))
             "S1"
             [ ("id", JSString "S1"); ("name", JSUndefined);
               ("coordinates", JSArray [JSUndefined; JSUndefined]);
               ("updated_at", JSUndefined) ]
             200 (JSObject [("success", JSBool false)])).
  - reflexivity.
  - reflexivity.
  - reflexivity.
  - discriminate.
  - discriminate.
Defined.

Lemma postEnergoToken_calls_witness :
  (Admin.postEnergoToken (fun _ => Some (JSBool true))
     (JSObject [("token", JSString " abc ")])).2
  = [" abc "].
Proof.
  apply (postEnergoToken_calls (fun _ => Some (JSBool true))
           (JSObject [("token", JSString " abc ")])); discriminate.
Defined.

(** * More on durations *)

Section DurationShape.

Import Duration.

Lemma parseInt10_numberToString (n : Z) :
  0 <= n -> parseInt10 (numberToString n) = Some n.
Proof.
  intros Hn. rewrite numberToString_nonneg by done.
  rewrite parseInt10_digits by apply isDigitString_naturalToString.
  destruct (scanDigits_naturalToString (Z.to_N n)) as (k & Hk & ->).
  f_equal. lia.
Qed.

Lemma isDigitString_numberToString (n : Z) :
  0 <= n -> isDigitString (numberToString n) = true.
Proof.
  intros Hn. rewrite numberToString_nonneg by done.
  apply isDigitString_naturalToString.
Qed.

(** X14.  [parseDurationToSeconds] does not insist on the normal form:
    for any three natural numbers written in decimal and joined by
    colons, two digits or not and below 60 or not, it returns the first
    times 3600 plus the second times 60 plus the third ("1:75:90" is
    8190 seconds), as long as that sum is a safe integer. *)
Theorem parseDurationToSeconds_fields (a b c : Z) :
  0 <= a -> 0 <= b -> 0 <= c ->
  a * 3600 + b * 60 + c <= MAX_SAFE_INTEGER ->
  parseDurationToSeconds
    (numberToString a +:+ ":" +:+ numberToString b +:+ ":" +:+ numberToString c)
  = a * 3600 + b * 60 + c.
Proof.
  intros Ha Hb Hc Hsafe. unfold parseDurationToSeconds. cbv zeta.
  change (":" +:+ ?x) with (String ":"%char x).
  rewrite split_digits_colon by (by apply isDigitString_numberToString).
  change (":" +:+ numberToString c) with (String ":"%char (numberToString c)).
  rewrite split_digits_colon by (by apply isDigitString_numberToString).
  rewrite split_digits by (by apply isDigitString_numberToString).
  cbn [length Nat.eqb negb nth].
  rewrite !parseInt10_numberToString by done. cbn [orZero].
  by apply durationSum_safe.
Qed.

Lemma parseDurationToSeconds_fields_witness :
  parseDurationToSeconds "1:75:90" = 8190.
Proof.
  apply (parseDurationToSeconds_fields 1 75 90); unfold MAX_SAFE_INTEGER; lia.
Defined.

Lemma length_append (s t : string) :
  String.length (s +:+ t) = (String.length s + String.length t)%nat.
Proof. induction s as [|c s IH]; [done|]. simpl. f_equal. exact IH. Qed.

Lemma length_repeatChar (n : nat) (c : ascii) : String.length (repeatChar n c) = n.
Proof. induction n as [|n IH]; [done|]. simpl. f_equal. exact IH. Qed.

Lemma length_padStart (s : string) :
  String.length (padStart 2 "0" s) = Nat.max 2 (String.length s).
Proof. unfold padStart. rewrite length_append, length_repeatChar. lia. Qed.

Lemma length_decimalDigits_lower (fuel : nat) (n : N) (acc : string) :
  (String.length acc < String.length (decimalDigits (S fuel) n acc))%nat.
Proof.
  revert n acc. induction fuel as [|fuel IH]; intros n acc.
  - rewrite decimalDigits_S. destruct (n / 10 =? 0)%N; cbn; lia.
  - rewrite decimalDigits_S. destruct (n / 10 =? 0)%N; [cbn; lia|].
    pose proof (IH (n / 10)%N (String (digitChar (n mod 10)) acc)) as Hlt.
    cbn [String.length] in Hlt. lia.
Qed.

Lemma length_naturalToString_small (n : N) :
  (n < 100)%N -> (1 <= String.length (naturalToString n) <= 2)%nat.
Proof.
  intros Hn. unfold naturalToString.
  destruct (N.to_nat (N.log2 n)) as [|fuel] eqn:Hfuel.
  - rewrite decimalDigits_S.
    assert (n < 2)%N as Hsmall.
    { destruct (N.eq_dec n 0%N) as [->|Hpos]; [done|].
      assert (N.log2 n = 0)%N as Hlog by lia.
      pose proof (N.log2_spec n ltac:(lia)) as [_ Hup]. rewrite Hlog in Hup.
      exact Hup. }
    rewrite N.div_small by lia. cbn. lia.
  - rewrite decimalDigits_S.
    destruct (N.eqb_spec (n / 10) 0) as [_|_]; [cbn; lia|].
    rewrite decimalDigits_S.
    assert (n / 10 < 10)%N as Hten by (apply N.Div0.div_lt_upper_bound; lia).
    rewrite (N.div_small (n / 10) 10) by done. cbn. lia.
Qed.

(** X15.  For every natural number of seconds (within the safe
    integers) the formatted duration
    holds exactly two colons and is at least 8 characters long, the
    minutes and seconds fields being two digits each; below 100 hours
    (360000 s) it is exactly 8 characters long, and from there on the
    hours field grows instead of being cut. *)
Theorem formatSecondsToDuration_shape (n : Z) :
  0 <= n <= MAX_SAFE_INTEGER ->
  countChar ":" (formatSecondsToDuration n) = 2%nat
  /\ (8 <= String.length (formatSecondsToDuration n))%nat
  /\ (n < 360000 -> String.length (formatSecondsToDuration n) = 8%nat)
  /\ String.length (formatSecondsToDuration n)
     = (Nat.max 2 (String.length (numberToString (n / 3600))) + 6)%nat.
Proof.
  intros Hsafe. pose proof Hsafe as [Hn _].
  assert (countChar ":" (formatSecondsToDuration n) = 2%nat) as Hcolons.
  { pose proof (split_length (formatSecondsToDuration n)) as Hlen.
    rewrite formatSecondsToDuration_split in Hlen by done. cbn in Hlen. lia. }
  assert (forall m, 0 <= m < 100 ->
            String.length (padStart 2 "0" (numberToString m)) = 2%nat) as Htwo.
  { intros m Hm. rewrite length_padStart, numberToString_nonneg by lia.
    pose proof (length_naturalToString_small (Z.to_N m) ltac:(lia)). lia. }
  assert (String.length (formatSecondsToDuration n)
          = (Nat.max 2 (String.length (numberToString (n / 3600))) + 6)%nat) as Hlen.
  { rewrite formatSecondsToDuration_safe by done.
    rewrite !length_append, length_padStart.
    assert (0 <= Z.rem n 3600 / 60 < 100) as Hmin.
    { rewrite Z.rem_mod_nonneg by lia. Z.div_mod_to_equations. lia. }
    assert (0 <= Z.rem n 60 < 100) as Hsec.
    { rewrite Z.rem_mod_nonneg by lia. Z.div_mod_to_equations. lia. }
    rewrite (Htwo _ Hmin), (Htwo _ Hsec). cbn. lia. }
  split; [done|]. split; [lia|]. split; [|done].
  intros Hsmall. rewrite Hlen.
  assert (0 <= n / 3600 < 100) as Hh by (Z.div_mod_to_equations; lia).
  rewrite numberToString_nonneg by lia.
  pose proof (length_naturalToString_small (Z.to_N (n / 3600)) ltac:(lia)). lia.
Qed.

Lemma formatSecondsToDuration_shape_witness :
  String.length (formatSecondsToDuration 359999) = 8%nat.
Proof.
  apply (formatSecondsToDuration_shape 359999); unfold MAX_SAFE_INTEGER; lia.
Defined.

Lemma parse_format (n : Z) :
  0 <= n <= MAX_SAFE_INTEGER ->
  parseDurationToSeconds (formatSecondsToDuration n) = n.
Proof.
  intros Hsafe. unfold parseDurationToSeconds. cbv zeta.
  rewrite formatSecondsToDuration_split by done.
  destruct Hsafe as [Hn Hsafe].
  cbn [length Nat.eqb negb nth].
  assert (0 <= n / 3600) by (apply Z.div_pos; lia).
  assert (0 <= Z.rem n 3600 / 60)
    by (apply Z.div_pos; [apply Z.rem_nonneg|]; lia).
  assert (0 <= Z.rem n 60) by (apply Z.rem_nonneg; lia).
  rewrite !parseInt10_padStart by done. cbn [orZero].
  rewrite durationSum_safe; try done.
  - rewrite !Z.rem_mod_nonneg by lia. Z.div_mod_to_equations. lia.
  - rewrite !Z.rem_mod_nonneg by lia. Z.div_mod_to_equations. lia.
Qed.

(** X16.  Two different natural numbers of seconds (within the safe
    integers) are never shown as the same duration. *)
Theorem formatSecondsToDuration_injective (n m : Z) :
  0 <= n <= MAX_SAFE_INTEGER -> 0 <= m <= MAX_SAFE_INTEGER ->
  n <> m -> formatSecondsToDuration n <> formatSecondsToDuration m.
Proof.
  intros Hn Hm Hne Heq. apply Hne.
  rewrite <- (parse_format n), <- (parse_format m) by done. by rewrite Heq.
Qed.

Lemma formatSecondsToDuration_injective_witness :
  formatSecondsToDuration 3599 <> formatSecondsToDuration 3600.
Proof.
  apply (formatSecondsToDuration_injective 3599 3600); unfold MAX_SAFE_INTEGER; lia.
Defined.

Lemma scanDigits_nonneg (s : string) (acc : Z) (seen : bool) (v : Z) :
  0 <= acc -> scanDigits s acc seen = Some v -> 0 <= v.
Proof.
  revert acc seen. induction s as [|c rest IH]; intros acc seen Hacc; cbn [scanDigits].
  - destruct seen; [|done]. by intros [= <-].
  - destruct (digitValue c) as [d|] eqn:Hd.
    + apply IH. unfold digitValue in Hd. cbv zeta in Hd.
      destruct (_ && _)%bool eqn:Hrange; [|done]. injection Hd as <-.
      apply andb_prop in Hrange as [Hlow _]. apply N.leb_le in Hlow. lia.
    + destruct seen; [|done]. by intros [= <-].
Qed.

Lemma orZero_digits_nonneg (s : string) :
  isDigitString s = true -> 0 <= orZero (parseInt10 s).
Proof.
  intros Hs. rewrite parseInt10_digits by done.
  destruct (scanDigits s 0 false) as [v|] eqn:Hscan; cbn [orZero]; [|done].
  by apply (scanDigits_nonneg s 0 false).
Qed.

(** A duration whose three fields are made of digits is not negative. *)
Lemma parseDurationToSeconds_digit_fields (h m s : string) :
  isDigitString h = true -> isDigitString m = true -> isDigitString s = true ->
  0 <= parseDurationToSeconds (h +:+ ":" +:+ m +:+ ":" +:+ s).
Proof.
  intros Hh Hm Hs. unfold parseDurationToSeconds. cbv zeta.
  change (":" +:+ ?x) with (String ":"%char x).
  rewrite split_digits_colon by done.
  change (":" +:+ s) with (String ":"%char s).
  rewrite split_digits_colon by done. rewrite split_digits by done.
  cbn [length Nat.eqb negb nth].
  pose proof (toNumber_nonneg _ (orZero_digits_nonneg h Hh)) as Hhours.
  pose proof (toNumber_nonneg _ (orZero_digits_nonneg m Hm)) as Hminutes.
  pose proof (toNumber_nonneg _ (orZero_digits_nonneg s Hs)) as Hseconds.
  pose proof (toNumber_nonneg (toNumber (orZero (parseInt10 h)) * 3600)
                ltac:(lia)) as Hproduct.
  pose proof (toNumber_nonneg (toNumber (orZero (parseInt10 m)) * 60)
                ltac:(lia)) as Hproduct'.
  apply toNumber_nonneg.
  pose proof (toNumber_nonneg _ (Z.add_nonneg_nonneg _ _ Hproduct Hproduct')). lia.
Qed.

End DurationShape.

(** * The scan view *)

Section ScanProperties.

Import Duration ScanService MapView.

(** ** The sticker id of a path *)

Lemma stripLeadingSlash_cases (path : string) :
  (exists rest, path = String "/" rest /\ stripLeadingSlash path = rest)
  \/ (stripLeadingSlash path = path /\ forall rest, path <> String "/" rest).
Proof.
  destruct path as [|c rest]; [by right|].
  destruct (Ascii.eqb_spec c "/") as [->|Hc].
  - left. by exists rest.
  - right. split; [|congruence].
    destruct c as [[] [] [] [] [] [] [] []]; try reflexivity. by destruct Hc.
Qed.

Lemma getStickerIdFromPath_some (path stickerId : string) :
  getStickerIdFromPath path = Some stickerId
  <-> stripLeadingSlash path = stickerId
      /\ stickerId <> "" /\ stickerId <> "map" /\ stickerId <> "api".
Proof.
  unfold getStickerIdFromPath. cbv zeta. cbn [truthy].
  destruct (String.eqb_spec (stripLeadingSlash path) "") as [Hempty|Hempty];
    [|destruct (String.eqb_spec (stripLeadingSlash path) "map") as [Hmap|Hmap];
      [|destruct (String.eqb_spec (stripLeadingSlash path) "api") as [Hapi|Hapi]]];
    cbn [negb orb]; split; try discriminate.
  - intros (Heq & Hne & _). congruence.
  - intros (Heq & _ & Hne & _). congruence.
  - intros (Heq & _ & _ & Hne). congruence.
  - intros [= <-]. done.
  - intros (-> & _). done.
Qed.

Lemma getStickerIdFromPath_none (path : string) :
  getStickerIdFromPath path = None
  <-> stripLeadingSlash path = "" \/ stripLeadingSlash path = "map"
      \/ stripLeadingSlash path = "api".
Proof.
  unfold getStickerIdFromPath. cbv zeta. cbn [truthy].
  destruct (String.eqb_spec (stripLeadingSlash path) "") as [Hempty|Hempty];
    [|destruct (String.eqb_spec (stripLeadingSlash path) "map") as [Hmap|Hmap];
      [|destruct (String.eqb_spec (stripLeadingSlash path) "api") as [Hapi|Hapi]]];
    cbn [negb orb]; split; try done; tauto.
Qed.

(** X17.  [getStickerIdFromPath] gives [null] exactly for the paths "",
    "/", "map", "/map", "api" and "/api".  It gives the sticker id
    [stickerId] exactly when that id is neither empty nor "map" nor
    "api" and the path is either the id behind one slash, or the id
    itself and does not begin with a slash: one leading slash is
    removed, and nothing else of the path is touched. *)
Theorem getStickerIdFromPath_spec (path : string) :
  (getStickerIdFromPath path = None
   <-> path ∈ ["" ; "/"; "map"; "/map"; "api"; "/api"])
  /\ (forall stickerId,
        getStickerIdFromPath path = Some stickerId
        <-> stickerId <> "" /\ stickerId <> "map" /\ stickerId <> "api"
            /\ (path = "/" +:+ stickerId
                \/ (path = stickerId /\ forall rest, path <> "/" +:+ rest))).
Proof.
  split.
  - rewrite getStickerIdFromPath_none.
    destruct (stripLeadingSlash_cases path) as [(rest & -> & ->)|[-> Hno]].
    + split.
      * intros [-> | [-> | ->]]; set_solver.
      * intros Hin.
        repeat (apply elem_of_cons in Hin as [Heq|Hin];
                [try discriminate Heq; injection Heq as ->; tauto|]).
        by apply elem_of_nil in Hin.
    + split.
      * intros [-> | [-> | ->]]; set_solver.
      * intros Hin.
        repeat (apply elem_of_cons in Hin as [Heq|Hin];
                [first [tauto | by apply Hno in Heq]|]).
        by apply elem_of_nil in Hin.
  - intros stickerId. rewrite getStickerIdFromPath_some.
    destruct (stripLeadingSlash_cases path) as [(rest & -> & ->)|[-> Hno]].
    + split.
      * intros (-> & Hempty & Hmap & Hapi). repeat split; try done. by left.
      * intros (Hempty & Hmap & Hapi & [Heq|[_ Hslash]]).
        -- injection Heq as ->. done.
        -- by destruct (Hslash rest).
    + split.
      * intros (-> & Hempty & Hmap & Hapi). repeat split; try done. by right.
      * intros (Hempty & Hmap & Hapi & [Heq|[Heq _]]).
        -- by destruct (Hno stickerId).
        -- done.
Qed.

(** X18.  The map view's [getStickerIdFromURL] is the stricter of the two
    readers: whenever it finds a sticker id, the scan view's
    [getStickerIdFromPath] finds the same one; the ids only the scan view
    accepts are exactly those that contain a dot. *)
Theorem getStickerIdFromURL_stricter (path : string) :
  (forall stickerId, getStickerIdFromURL path = Some stickerId ->
     getStickerIdFromPath path = Some stickerId
     /\ includesChar "." stickerId = false)
  /\ (forall stickerId, getStickerIdFromPath path = Some stickerId ->
        getStickerIdFromURL path
        = if includesChar "." stickerId then None else Some stickerId).
Proof.
  unfold getStickerIdFromURL, getStickerIdFromPath. cbv zeta.
  destruct (negb (truthy (JSString (stripLeadingSlash path)))
            || String.eqb (stripLeadingSlash path) "map"
            || String.eqb (stripLeadingSlash path) "api") eqn:Hreserved.
  - cbn [orb]. split; intros stickerId Heq; discriminate.
  - cbn [orb]. split.
    + intros stickerId Heq.
      destruct (includesChar "." (stripLeadingSlash path)) eqn:Hdot; [discriminate|].
      injection Heq as <-. done.
    + intros stickerId [= <-].
      by destruct (includesChar "." (stripLeadingSlash path)).
Qed.

(** ** The duration timer *)

Lemma clearInterval_spec id (t : Timer) :
  durationTimer (clearInterval id t) = durationTimer t
  /\ intervals (clearInterval id t) = delete id (intervals t)
  /\ nextInterval (clearInterval id t) = nextInterval t
  /\ batteryDuration (clearInterval id t) = batteryDuration t.
Proof. by destruct t. Qed.

(** Clearing the interval [durationTimer] names leaves nothing armed. *)
Lemma timerInvariant_cleared (t : Timer) id :
  timerInvariant t -> durationTimer t = Some id ->
  intervals (clearInterval id t) = ∅.
Proof.
  intros (Hone & _ & _) Hcurrent.
  destruct (clearInterval_spec id t) as (_ & -> & _).
  apply map_empty. intros id'.
  destruct (decide (id' = id)) as [->|Hne]; [apply lookup_delete_eq|].
  rewrite lookup_delete_ne by done.
  destruct (intervals t !! id') as [total|] eqn:Hlook; [|done].
  assert (durationTimer t = Some id') as Hid' by (apply Hone; eauto).
  congruence.
Qed.

Lemma timerInvariant_armed_none (t : Timer) :
  timerInvariant t -> durationTimer t = None -> intervals t = ∅.
Proof.
  intros (Hone & _ & _) Hnone. apply map_empty. intros id.
  destruct (intervals t !! id) as [total|] eqn:Hlook; [|done].
  assert (durationTimer t = Some id) by (apply Hone; eauto). congruence.
Qed.

Lemma timerInvariant_start (initialDuration : JSValue) (t : Timer) :
  timerInvariant t -> timerInvariant (startDurationTimer initialDuration t).1.
Proof.
  intros Hinv. unfold startDurationTimer.
  assert (exists t1,
            (match durationTimer t with
             | Some id => clearInterval id t
             | None => t
             end) = t1
            /\ intervals t1 = ∅ /\ nextInterval t1 = nextInterval t
            /\ durationTimer t1 = durationTimer t) as (t1 & -> & Hempty & Hnext & Hcur).
  { destruct (durationTimer t) as [id|] eqn:Hcurrent.
    - eexists. split; [done|].
      destruct (clearInterval_spec id t) as (Hc & _ & Hn & _).
      split; [by apply timerInvariant_cleared|]. by rewrite Hc, Hn.
    - eexists. split; [done|]. split; [|done].
      by apply timerInvariant_armed_none. }
  assert (timerInvariant t1) as Hinv1.
  { destruct Hinv as (_ & Hbelow & _). unfold timerInvariant.
    rewrite Hempty, Hnext, Hcur. split; [|split; [done|]].
    - intros id [total Hlook]. by rewrite lookup_empty in Hlook.
    - intros id [total Hlook]. by rewrite lookup_empty in Hlook. }
  destruct t1 as [current armed next text]. cbn in Hempty. subst armed.
  destruct text as [shown|]; [|done].
  destruct initialDuration; try done.
  cbn [fst]. unfold timerInvariant. cbn [durationTimer intervals nextInterval].
  split; [|split].
  - intros id [total Hlook].
    destruct (decide (id = next)) as [->|Hne]; [done|].
    by rewrite lookup_insert_ne, lookup_empty in Hlook.
  - intros id [= <-]. lia.
  - intros id [total Hlook].
    destruct (decide (id = next)) as [->|Hne]; [lia|].
    by rewrite lookup_insert_ne, lookup_empty in Hlook.
Qed.

Lemma timerInvariant_stop (t : Timer) :
  timerInvariant t ->
  timerInvariant (stopDurationTimer t) /\ intervals (stopDurationTimer t) = ∅.
Proof.
  intros Hinv. unfold stopDurationTimer.
  destruct (durationTimer t) as [id|] eqn:Hcurrent.
  - pose proof (timerInvariant_cleared t id Hinv Hcurrent) as Hempty.
    destruct (clearInterval_spec id t) as (_ & _ & Hn & _).
    destruct (clearInterval id t) as [current armed next text].
    cbn in Hempty, Hn. subst armed. cbn [intervals]. split; [|done].
    unfold timerInvariant. cbn [durationTimer intervals nextInterval].
    split; [|split]; [|done|].
    + intros id' [total Hlook]. by rewrite lookup_empty in Hlook.
    + intros id' [total Hlook]. by rewrite lookup_empty in Hlook.
  - split; [done|]. by apply timerInvariant_armed_none.
Qed.

Lemma timerInvariant_tick id (t : Timer) :
  timerInvariant t -> timerInvariant (tick id t).
Proof.
  intros (Hone & Hbelow & Harmed). destruct t as [current armed next text].
  unfold tick. destruct (armed !! id) as [total|] eqn:Hlook; [|done].
  unfold timerInvariant in *.
  cbn [durationTimer intervals nextInterval] in *.
  split; [|split; [done|]].
  - intros id' Hsome. apply Hone. apply lookup_insert_is_Some in Hsome.
    destruct Hsome as [<-|[_ Hsome]]; eauto.
  - intros id' Hsome. apply Harmed. apply lookup_insert_is_Some in Hsome.
    destruct Hsome as [<-|[_ Hsome]]; eauto.
Qed.

Lemma timerInvariant_run (events : list TimerEvent) (t : Timer) :
  timerInvariant t -> timerInvariant (timerRun events t).
Proof.
  revert t. induction events as [|event events IH]; intros t Hinv; [done|].
  cbn [timerRun fold_left]. apply IH.
  destruct event as [initialDuration| |id]; cbn [timerStep].
  - by apply timerInvariant_start.
  - by apply timerInvariant_stop.
  - by apply timerInvariant_tick.
Qed.

Lemma timerInvariant_fresh text : timerInvariant (freshTimer text).
Proof.
  unfold timerInvariant, freshTimer. cbn.
  split; [|split; [done|]]; intros id [total Hlook];
    by rewrite lookup_empty in Hlook.
Qed.

(** X19.  Whatever sequence of starts, stops and firings the timer goes
    through after the script is loaded, at most one interval is armed,
    and it is the one [durationTimer] names: the display is never driven
    by two counters at once.  Right after a stop nothing is armed. *)
Theorem timer_single_interval (events : list TimerEvent) (text : option string) :
  let t := timerRun events (freshTimer text) in
  (forall id, is_Some (intervals t !! id) -> durationTimer t = Some id)
  /\ (size (intervals t) <= 1)%nat
  /\ intervals (stopDurationTimer t) = ∅.
Proof.
  cbv zeta.
  pose proof (timerInvariant_run events _ (timerInvariant_fresh text)) as Hinv.
  split; [apply Hinv|]. split; [|by apply timerInvariant_stop].
  destruct (durationTimer (timerRun events (freshTimer text))) as [id|] eqn:Hcurrent.
  - pose proof (timerInvariant_cleared _ id Hinv Hcurrent) as Hempty.
    destruct (clearInterval_spec id (timerRun events (freshTimer text)))
      as (_ & Hdel & _).
    rewrite Hdel in Hempty.
    pose proof (map_size_delete id (intervals (timerRun events (freshTimer text))))
      as Hsize.
    rewrite Hempty, map_size_empty in Hsize.
    destruct (intervals (timerRun events (freshTimer text)) !! id);
      cbn in Hsize; lia.
  - rewrite (timerInvariant_armed_none _ Hinv Hcurrent), map_size_empty. lia.
Qed.

Lemma ticks_armed (n : nat) id total (t : Timer) :
  intervals t !! id = Some total ->
  0 <= total -> total + Z.of_nat n <= MAX_SAFE_INTEGER ->
  intervals (ticks n id t) !! id = Some (total + Z.of_nat n)
  /\ batteryDuration (ticks n id t)
     = match n with
       | O => batteryDuration t
       | S _ => Some (formatSecondsToDuration (total + Z.of_nat n))
       end
  /\ durationTimer (ticks n id t) = durationTimer t.
Proof.
  intros Hlook Htotal. unfold MAX_SAFE_INTEGER.
  induction n as [|n IH]; intros Hsafe.
  - cbn. rewrite Z.add_0_r. done.
  - destruct IH as (IHarmed & IHtext & IHcur); [lia|].
    change (ticks (S n) id t) with (tick id (ticks n id t)).
    destruct (ticks n id t) as [current armed next text].
    cbn [intervals batteryDuration durationTimer] in *.
    unfold tick. rewrite IHarmed. cbv zeta.
    cbn [intervals batteryDuration durationTimer].
    rewrite lookup_insert_eq, toNumber_safe by lia.
    replace (total + Z.of_nat n + 1) with (total + Z.of_nat (S n)) by lia.
    done.
Qed.

(** X20.  When the page has the duration element, starting the timer on
    a duration whose three fields are made of digits shows that duration
    in normal form at once, and after [n] firings of the interval it
    armed the display is the formatted count of the initial seconds plus
    [n], which reads back as exactly that count (as long as the count is
    a safe integer). *)
Theorem timer_counts_up (hours minutes seconds shown : string) (n : nat) (t : Timer) :
  batteryDuration t = Some shown ->
  isDigitString hours = true -> isDigitString minutes = true ->
  isDigitString seconds = true ->
  let durationString := hours +:+ ":" +:+ minutes +:+ ":" +:+ seconds in
  let initial := parseDurationToSeconds durationString in
  initial + Z.of_nat n <= MAX_SAFE_INTEGER ->
  let started := (startDurationTimer (JSString durationString) t).1 in
  let running := ticks n (nextInterval t) started in
  batteryDuration started = Some (formatSecondsToDuration initial)
  /\ durationTimer running = Some (nextInterval t)
  /\ batteryDuration running
     = Some (formatSecondsToDuration (initial + Z.of_nat n))
  /\ parseDurationToSeconds (formatSecondsToDuration (initial + Z.of_nat n))
     = initial + Z.of_nat n.
Proof.
  intros Htext Hh Hm Hs. cbv zeta.
  pose proof (parseDurationToSeconds_digit_fields hours minutes seconds Hh Hm Hs)
    as Hnonneg.
  set (durationString := hours +:+ ":" +:+ minutes +:+ ":" +:+ seconds) in *.
  set (initial := parseDurationToSeconds durationString) in *.
  intros Hsafe.
  assert ((startDurationTimer (JSString durationString) t).1
          = mkTimer (Some (nextInterval t))
              (<[nextInterval t := initial]>
                 (intervals (match durationTimer t with
                             | Some id => clearInterval id t
                             | None => t
                             end)))
              (Pos.succ (nextInterval t))
              (Some (formatSecondsToDuration initial))) as ->.
  { unfold startDurationTimer.
    destruct (durationTimer t) as [id|].
    - destruct t as [current armed next text]. cbn in Htext. subst text. done.
    - destruct t as [current armed next text]. cbn in Htext. subst text. done. }
  match goal with
  | |- context [ticks n ?id ?s] =>
      destruct (ticks_armed n id initial s) as (Harmed & Hshown & Hcur)
  end.
  { cbn [intervals]. apply lookup_insert_eq. }
  { exact Hnonneg. }
  { exact Hsafe. }
  cbn [batteryDuration durationTimer] in *.
  split; [done|]. split; [done|]. split.
  - rewrite Hshown. destruct n; [|done]. by rewrite Z.add_0_r.
  - apply parse_format. lia.
Qed.

Lemma timer_counts_up_witness :
  batteryDuration
    (ticks 3 1%positive
       (startDurationTimer (JSString "00:59:58") (freshTimer (Some ""))).1)
  = Some (formatSecondsToDuration (3598 + 3)).
Proof.
  pose proof (timer_counts_up "00" "59" "58" "" 3 (freshTimer (Some ""))
                eq_refl eq_refl eq_refl eq_refl) as Hrun.
  cbv zeta in Hrun.
  destruct Hrun as (_ & _ & Hshown & _).
  - vm_compute. discriminate.
  - exact Hshown.
Defined.

(** ** The battery modal *)

(** Starting the timer on a string when the duration element exists. *)
Lemma startDurationTimer_string (durationString shown : string) (t : Timer) :
  timerInvariant t -> batteryDuration t = Some shown ->
  startDurationTimer (JSString durationString) t
  = (mkTimer (Some (nextInterval t))
       {[ nextInterval t := parseDurationToSeconds durationString ]}
       (Pos.succ (nextInterval t))
       (Some (formatSecondsToDuration (parseDurationToSeconds durationString))),
     false).
Proof.
  intros Hinv Htext. unfold startDurationTimer.
  destruct (durationTimer t) as [id|] eqn:Hcurrent.
  - pose proof (timerInvariant_cleared t id Hinv Hcurrent) as Hempty.
    destruct t as [current armed next text]. cbn in Htext, Hempty |- *.
    subst text. by rewrite Hempty, insert_empty.
  - pose proof (timerInvariant_armed_none t Hinv Hcurrent) as Hempty.
    destruct t as [current armed next text]. cbn in Htext, Hempty |- *.
    subst text armed. by rewrite insert_empty.
Qed.

(** X21.  On a page that has the modal, the paid amount and the duration
    element, showing a battery whose duration is a string (or missing:
    then "00:00:00" is used) does not throw: the modal becomes active,
    the amount paid is shown after a dollar sign (0 when missing) and
    exactly one interval is armed.  Hiding the modal afterwards
    deactivates it and leaves no interval armed, the display keeping its
    last text. *)
Theorem modal_show_hide (batteryData : JSValue) (page : Page) (active : bool)
    (paid shown durationString : string) :
  timerInvariant (timer page) ->
  batteryModal page = Some active -> batteryPaid page = Some paid ->
  batteryDuration (timer page) = Some shown ->
  truthy batteryData = true ->
  jsOr (default JSUndefined (readField batteryData "duration")) (JSString "00:00:00")
  = JSString durationString ->
  let visible := (showBatteryModal batteryData page).1 in
  let hidden := hideBatteryModal visible in
  (showBatteryModal batteryData page).2 = false
  /\ batteryModal visible = Some true
  /\ batteryPaid visible
     = Some ("$" +:+ toString (jsOr (default JSUndefined
                                        (readField batteryData "amountPaid"))
                                     (JSNumber 0)))
  /\ size (intervals (timer visible)) = 1%nat
  /\ batteryModal hidden = Some false
  /\ durationTimer (timer hidden) = None
  /\ intervals (timer hidden) = ∅
  /\ batteryDuration (timer hidden) = batteryDuration (timer visible).
Proof.
  intros Hinv Hmodal Hpaid Htext Hdata Hduration. cbv zeta.
  destruct page as [clock modal paidText]. cbn [timer batteryModal batteryPaid] in *.
  subst modal paidText. unfold showBatteryModal.
  rewrite Hdata. cbv zeta. rewrite Hduration.
  rewrite (startDurationTimer_string durationString shown clock Hinv Htext).
  cbn [fst snd timer batteryModal batteryPaid batteryDuration intervals].
  repeat split; try done.
  - by rewrite map_size_singleton.
  - unfold hideBatteryModal, stopDurationTimer.
    cbn [durationTimer clearInterval timer intervals].
    by rewrite delete_singleton_eq.
Qed.

Lemma modal_show_hide_witness :
  batteryPaid
    (showBatteryModal (JSObject [("duration", JSString "00:10:05")])
       (mkPage (freshTimer (Some "")) (Some false) (Some ""))).1
  = Some "$0".
Proof.
  pose proof (modal_show_hide (JSObject [("duration", JSString "00:10:05")])
                (mkPage (freshTimer (Some "")) (Some false) (Some ""))
                false "" "" "00:10:05"
                (timerInvariant_fresh (Some "")) eq_refl eq_refl eq_refl eq_refl eq_refl)
    as (_ & _ & Hpaid & _).
  exact Hpaid.
Defined.

(** ** Loading the scan view *)

Variable fetch : Request -> FetchOutcome.

(** Battery data is only ever what a successful answer carried. *)
Lemma fetchBatteryData_truthy (stickerId : string) :
  truthy (fetchBatteryData fetch stickerId).1 = true ->
  exists ok status result success,
    fetch (batteryRequest stickerId) = Answered ok status (inl result)
    /\ readField result "success" = Some success /\ truthy success = true
    /\ readField result "data" = Some (fetchBatteryData fetch stickerId).1.
Proof.
  unfold fetchBatteryData. cbn [fst].
  destruct (fetch (batteryRequest stickerId)) as [message|ok status [result|message]];
    try discriminate.
  destruct (readField result "success") as [success|] eqn:Hsuccess; [|discriminate].
  destruct (readField result "data") as [data|] eqn:Hdata; [|discriminate].
  destruct (truthy success) eqn:Hs; [|discriminate].
  destruct (truthy data) eqn:Hd; [|discriminate].
  cbn [andb]. intros _. by exists ok, status, result, success.
Qed.

(** X22.  Loading the scan view on one of the paths without a sticker id
    sends no request and leaves the page alone.  On every other path the
    battery is requested first; a scan record is posted only after that
    request was answered with success and truthy data that carry a truthy
    [manufacture_id], it goes to the same sticker id and carries that
    [manufacture_id] in its header; and it is not posted when showing the
    battery failed with an exception. *)
Theorem initScanService_requests (path : string) (page : Page) :
  let out := initScanService fetch path page in
  (getStickerIdFromPath path = None -> out = (page, []))
  /\ (forall stickerId, getStickerIdFromPath path = Some stickerId ->
        let batteryData := (fetchBatteryData fetch stickerId).1 in
        (out.2 = [batteryRequest stickerId]
         \/ exists manufactureId,
              out.2 = [batteryRequest stickerId; scanRequest stickerId manufactureId]
              /\ truthy batteryData = true
              /\ readField batteryData "manufacture_id" = Some manufactureId
              /\ truthy manufactureId = true
              /\ (showBatteryModal batteryData page).2 = false)
        /\ (truthy batteryData = false -> out = (page, [batteryRequest stickerId]))).
Proof.
  cbv zeta. unfold initScanService.
  destruct (getStickerIdFromPath path) as [stickerId|]; [|done].
  split; [done|]. intros ? [= <-].
  change (fetchBatteryData fetch stickerId)
    with ((fetchBatteryData fetch stickerId).1, [batteryRequest stickerId]).
  cbn beta iota. cbn [fst].
  destruct (truthy (fetchBatteryData fetch stickerId).1) eqn:Hdata.
  2: { split; [by left | done]. }
  split; [|done].
  destruct (showBatteryModal (fetchBatteryData fetch stickerId).1 page)
    as [page' threw] eqn:Hshow.
  destruct threw; [by left|].
  destruct (readField (fetchBatteryData fetch stickerId).1 "manufacture_id")
    as [manufactureId|] eqn:Hid; cbn [from_option Datatypes.id].
  - destruct (truthy manufactureId) eqn:Hm; [|by left].
    right. exists manufactureId. done.
  - by left.
Qed.

End ScanProperties.
